(** * scaffold.py: a shallow embedding of the spec-driven project scaffolder

    The program is interactive glue: it reads a few answers from standard
    input, renders string templates and writes them below a fresh directory.
    It is embedded as a state-and-exception monad over a [World] holding the
    standard streams, the clock and a file tree.

    Modelling conventions.
    - A Python [str] is a [string] of bytes (UTF-8 for the few non-ASCII
      characters of the templates); whitespace and digits are the ASCII ones.
    - The file tree is an idealised POSIX tree of directories and regular
      files, keyed by absolute component lists.  Path resolution is lexical,
      as [pathlib] does it; symbolic links, permissions, quotas, name-length
      limits and modification times are outside the model, and a [".."]
      component is just a name, which is why the file-system theorems ask
      for names without such a component.
    - Exceptions are values of [exn]; [SystemExit c] ends the process with
      status [c]. *)

From Stdlib Require Import ZArith Ascii String List Lia DecimalString.
From stdpp Require Import gmap strings list fin_maps.

Local Open Scope Z_scope.

(** ** Python string helpers *)

(** [chr(34)], the one character a literal of this file cannot contain. *)
Definition dquote : string :=
  String (Ascii.Ascii false true false false false true false false) "".

(** [str.isspace] on the ASCII range: TAB, LF, VT, FF, CR, FS, GS, RS, US and
    the space. *)
Definition is_space (c : ascii) : bool :=
  let n := nat_of_ascii c in
  ((9 <=? n) && (n <=? 13) || (28 <=? n) && (n <=? 32))%nat.

Fixpoint lstrip (s : string) : string :=
  match s with
  | String c r => if is_space c then lstrip r else s
  | EmptyString => EmptyString
  end.

Fixpoint rstrip (s : string) : string :=
  match s with
  | String c r =>
      match rstrip r with
      | EmptyString => if is_space c then EmptyString else String c EmptyString
      | r' => String c r'
      end
  | EmptyString => EmptyString
  end.

(** [s.strip()] *)
Definition strip (s : string) : string := rstrip (lstrip s).

Definition first_char (s : string) : option ascii :=
  match s with String c _ => Some c | EmptyString => None end.

Fixpoint last_char (s : string) : option ascii :=
  match s with
  | String c EmptyString => Some c
  | String _ r => last_char r
  | EmptyString => None
  end.

Definition digit_val (c : ascii) : option Z :=
  let n := nat_of_ascii c in
  if ((48 <=? n) && (n <=? 57))%nat then Some (Z.of_nat n - 48) else None.

(** The digit part of an integer literal handed to [int]: decimal digits,
    with single underscores allowed between two digits. [after_digit] tells
    whether the previous character was a digit. *)
Fixpoint int_digits (acc : Z) (after_digit : bool) (s : string) : option Z :=
  match s with
  | EmptyString => if after_digit then Some acc else None
  | String c r =>
      match digit_val c with
      | Some d => int_digits (10 * acc + d) true r
      | None =>
          if Ascii.eqb c "_" && after_digit then int_digits acc false r
          else None
      end
  end.

(** [int(s)] in base ten; [None] stands for [ValueError]. (CPython also
    raises [ValueError] on more than 4300 digits; such a number is out of the
    range of every menu, so [prompt_choice] behaves the same either way.) *)
Definition py_int (s : string) : option Z :=
  match strip s with
  | String "+" r => int_digits 0 false r
  | String "-" r => Z.opp <$> int_digits 0 false r
  | t => int_digits 0 false t
  end.

(** [str(n)] for a natural number. *)
Definition str_nat (n : nat) : string := NilZero.string_of_uint (Nat.to_uint n).

(** Verbatim occurrence of [s] inside [t]. *)
Definition occurs_in (s t : string) : Prop :=
  ∃ pre post : string, t = pre +:+ s +:+ post.

Fixpoint starts_with (s t : string) : bool :=
  match s, t with
  | EmptyString, _ => true
  | String a s', String b t' => Ascii.eqb a b && starts_with s' t'
  | String _ _, EmptyString => false
  end.

Fixpoint occursb (s t : string) : bool :=
  starts_with s t ||
  match t with
  | String _ t' => occursb s t'
  | EmptyString => false
  end.


(** ** The world: streams, clock and file tree *)

Record date := mkDate { year : Z; month : Z; day : Z }.


Definition digit_char (n : Z) : ascii := ascii_of_nat (Z.to_nat (48 + n mod 10)).

Definition pad2 (n : Z) : string :=
  String (digit_char (n / 10)) (String (digit_char n) "").

Definition pad4 (n : Z) : string :=
  String (digit_char (n / 1000)) (String (digit_char (n / 100)) (pad2 n)).

(** [date.isoformat()] *)
Definition isoformat (d : date) : string :=
  pad4 (year d) +:+ "-" +:+ pad2 (month d) +:+ "-" +:+ pad2 (day d).

Inductive node :=
  | Dir
  | File (data : string).

Inductive errno := ENOENT | EEXIST | ENOTDIR | EISDIR.

(** The mutating system calls that succeeded, oldest first. *)
Inductive event :=
  | EvMkdir (k : list string)
  | EvWrite (k : list string) (data : string)
  | EvCreate (k : list string)
  | EvUtime (k : list string).

Record World := mkWorld {
  cwd : list string;
  fs : gmap (list string) node;
  clock : date;
  stdin : list string;
  stdout : list string;
  events : list event
}.

Definition set_fs (t : gmap (list string) node) (w : World) : World :=
  mkWorld (cwd w) t (clock w) (stdin w) (stdout w) (events w).

Definition set_stdin (l : list string) (w : World) : World :=
  mkWorld (cwd w) (fs w) (clock w) l (stdout w) (events w).

Definition emit (s : string) (w : World) : World :=
  mkWorld (cwd w) (fs w) (clock w) (stdin w) (stdout w ++ [s]) (events w).

Definition record_event (e : event) (w : World) : World :=
  mkWorld (cwd w) (fs w) (clock w) (stdin w) (stdout w) (events w ++ [e]).

Inductive exn :=
  | SystemExit (code : Z)
  | EOFError
  | OSError (e : errno).

(** Outcome of running a computation: a value, an exception, or a loop cut
    short by its iteration bound (shown below never to happen). *)
Inductive result (A : Type) :=
  | Ok (a : A) (w : World)
  | Raise (e : exn) (w : World)
  | Cut.
Arguments Ok {A} a w.
Arguments Raise {A} e w.
Arguments Cut {A}.

Definition M (A : Type) : Type := World → result A.

Global Instance M_ret : MRet M := λ A a w, Ok a w.
Global Instance M_bind : MBind M := λ A B f m w,
  match m w with
  | Ok a w' => f a w'
  | Raise e w' => Raise e w'
  | Cut => Cut
  end.

Definition raise {A} (e : exn) : M A := λ w, Raise e w.

(** [try: m except <exceptions selected by h>: ...] *)
Definition try_except {A} (m : M A) (h : exn → option (M A)) : M A := λ w,
  match m w with
  | Raise e w' => match h e with Some k => k w' | None => Raise e w' end
  | r => r
  end.

(** A string followed by the newline that [print] adds. *)
Definition ln (s : string) : string := s +:+ "
".

(** [print(s)] *)
Definition print (s : string) : M unit := λ w, Ok () (emit (ln s) w).

(** [input(prompt)]: the prompt goes to standard output, one line is taken
    from standard input; at end of input [EOFError] is raised. *)
Definition input (prompt : string) : M string := λ w,
  match stdin w with
  | l :: rest => Ok l (set_stdin rest (emit prompt w))
  | [] => Raise EOFError (emit prompt w)
  end.

(** A loop whose every iteration reads a line: [body] returns [Some] to leave
    the loop with a value. *)
Fixpoint loop {A} (fuel : nat) (body : M (option A)) : M A :=
  match fuel with
  | O => λ _, Cut
  | S n => r ← body; match r with Some a => mret a | None => loop n body end
  end.

(** [while True: body], for bodies that consume input on every iteration. *)
Definition while_True {A} (body : M (option A)) : M A := λ w,
  loop (S (length (stdin w))) body w.

(** ** Input Collector *)

Definition prompt (question : string) (default : string) : M string :=
  if negb (String.eqb default "") then
    line ← input (question +:+ " [" +:+ default +:+ "]: ");
    let response := strip line in
    mret (if negb (String.eqb response "") then response else default)
  else
    line ← input (question +:+ ": ");
    mret (strip line).

Fixpoint print_options (i : nat) (options : list string) : M unit :=
  match options with
  | [] => mret ()
  | option :: rest =>
      print ("  " +:+ str_nat i +:+ ". " +:+ option);; print_options (S i) rest
  end.

Definition guidance (options : list string) : string :=
  "Please enter a number between 1 and " +:+ str_nat (length options).

(** One iteration of the [while True] loop of [prompt_choice]. *)
Definition prompt_choice_body (options : list string) : M (option string) :=
  line ← input "Enter number: ";
  match py_int (strip line) with
  | Some choice =>
      if (1 <=? choice) && (choice <=? Z.of_nat (length options)) then
        mret (options !! Z.to_nat (choice - 1))
      else
        print (guidance options);; mret None
  | None => print (guidance options);; mret None
  end.

Definition prompt_choice (question : string) (options : list string) : M string :=
  print ("
" +:+ question);;
  print_options 1 options;;
  while_True (prompt_choice_body options).

Record Inputs := mkInputs {
  name : string;
  description : string;
  project_type : string;
  ai_tool : string
}.

Definition PROJECT_TYPES : list string :=
  ["Data pipeline"; "Analysis tool"; "Algorithm implementation"; "General"].

Definition AI_TOOLS : list string :=
  ["Claude Code"; "Cursor"; "GitHub Copilot"; "Other/None"].

Definition DEFAULT_DESCRIPTION : string := "A spec-driven scientific project".

(** The [while not name] loop of [gather_inputs]. *)
Definition name_loop_body : M (option string) :=
  print "Project name is required.";;
  name ← prompt "Project name" "";
  mret (if negb (String.eqb name "") then Some name else None).

Definition gather_inputs : M Inputs :=
  print "
=== Spec-Driven Project Scaffolder ===
";;
  name ← prompt "Project name (e.g., seismic-analysis)" "";
  name ← (if negb (String.eqb name "") then mret name else while_True name_loop_body);
  description ← prompt "One-line description" DEFAULT_DESCRIPTION;
  project_type ← prompt_choice "Project type:" PROJECT_TYPES;
  ai_tool ← prompt_choice "Primary AI coding assistant:" AI_TOOLS;
  mret (mkInputs name description project_type ai_tool).

(** ** Template Catalog *)

(** [_today()]: today's date as YYYY-MM-DD. The clock it reads is the
    argument. *)
Definition _today (today : date) : string := isoformat today.

(** The guide written to [specs/spec-format.md]. *)
Definition SPEC_FORMAT : string :=
"# Spec Format Guide

This document explains how to write specifications for this project.
Both humans and AI assistants should reference this for consistency.

## Status Labels

Every spec should have a status in its frontmatter:

- **Draft** — Initial writing, not yet reviewed
- **In Review** — Ready for feedback
- **Approved** — Accepted, ready for implementation
- **Implemented** — Code exists that fulfills this spec
- **Deprecated** — No longer applicable

## Spec Types

### Requirements Specs

Describe *what* the system should do from the user's perspective.

- Use **[MUST]**, **[SHOULD]**, **[COULD]** to indicate priority
- Write as capabilities, not implementation details
- Be specific enough to test against

Example:
```markdown
- **[MUST]** Calculate RMS amplitude for each time window
- **[SHOULD]** Support configurable window sizes (default: 1 second)
- **[COULD]** Export results to CSV format
```

### Architecture Specs

Describe *how* components fit together.

- Include diagrams where helpful (Mermaid works well)
- Define interfaces between components
- Document data flow

### Algorithm Specs

Describe computational methods in detail.

- Reference source papers/methods
- Include mathematical notation where precise
- Define expected inputs, outputs, and edge cases
- Specify validation approach

### Decision Records (ADRs)

Document significant decisions and their rationale.

- Context: What prompted this decision?
- Decision: What did we decide?
- Consequences: What are the tradeoffs?

## Markdown Conventions

- Use fenced code blocks with language tags
- Use tables for structured comparisons
- Cross-reference other specs with relative links: `[see requirements](../01-requirements/functional.md)`

## Change Records

Each spec should end with a change record:

```markdown
## Change Record

- YYYY-MM-DD: Initial draft
- YYYY-MM-DD: Added edge case handling per review feedback
```
".

(** Rendered into [specs/00-overview.md]; [today] is the value of [_today()] at the time of the call. *)
Definition overview_template (today : date) (name description : string) : string :=
"# " +:+ name +:+ "

**Status**: Draft

" +:+ description +:+ "

<!--
This is your project's overview spec. It should answer:
- What problem does this project solve?
- Who is it for?
- What are the key capabilities?

Keep it high-level. Details go in requirements and architecture specs.

Delete these instructions once you've written the overview.
-->

## Problem Statement

[What problem are you solving? Why does it matter?]

## Goals

[What should this project accomplish?]

## Non-Goals

[What is explicitly out of scope?]

## Key Components

[High-level overview of the main parts]

## Change Record

- " +:+ _today today +:+ ": Initial draft
".

(** Written to [specs/01-requirements/functional.md]. *)
Definition FUNCTIONAL_REQUIREMENTS : string :=
"# Functional Requirements

**Status**: Draft

<!--
This file describes WHAT your system should do from the user's perspective.
Write these as capabilities, not implementation details.

Tips:
- Start each requirement with a verb (Calculate, Display, Export...)
- Use [MUST], [SHOULD], [COULD] to prioritize (see spec-format.md)
- Be specific enough to test against later
- It's okay to start sparse and add detail as you learn more

Delete these instructions once you've got the hang of it.
-->

## Overview

[Brief context for what you're building]

## Core Capabilities

- **[MUST]** [Required capability]
- **[MUST]** [Another required capability]
- **[SHOULD]** [Important but deferrable]
- **[COULD]** [Nice to have]

## Input/Output

### Inputs

[What data or parameters does the system accept?]

### Outputs

[What does the system produce?]

## Error Handling

[How should the system behave when things go wrong?]

## Open Questions

[What's still unclear? What needs discussion?]

## Change Record

- YYYY-MM-DD: Initial draft
".

(** Written to [specs/99-decisions/adr-000-template.md]. *)
Definition ADR_TEMPLATE : string :=
"# ADR-000: Decision Record Template

**Status**: Template

**Date**: YYYY-MM-DD

<!--
Architecture Decision Records (ADRs) capture significant technical decisions.
Copy this template for each new decision. Number them sequentially (ADR-001, ADR-002, etc.).

A good ADR explains:
- What decision was made
- Why it was made (context and constraints)
- What alternatives were considered
- What the consequences are

Delete these instructions when writing a real ADR.
-->

## Context

[What is the issue? What forces are at play? What constraints exist?]

## Decision

[What did you decide to do?]

## Alternatives Considered

### Alternative 1: [Name]

[Description, pros, cons]

### Alternative 2: [Name]

[Description, pros, cons]

## Consequences

### Positive

- [Benefit 1]
- [Benefit 2]

### Negative

- [Tradeoff 1]
- [Tradeoff 2]

### Neutral

- [Side effect that's neither good nor bad]

## Change Record

- YYYY-MM-DD: Initial decision
".

(** Written to [specs/02-architecture/data-flow.md] for data pipelines. *)
Definition DATA_FLOW_TEMPLATE : string :=
"# Data Flow Architecture

**Status**: Draft

<!--
This spec describes how data moves through your pipeline.
Useful for data processing, ETL, and analysis projects.

Delete these instructions once you've documented your data flow.
-->

## Overview

[High-level description of the data flow]

## Pipeline Stages

### Stage 1: Ingestion

**Input**: [Source format, location]
**Output**: [Intermediate format]
**Processing**: [What happens here]

### Stage 2: Processing

**Input**: [From previous stage]
**Output**: [Transformed data]
**Processing**: [What happens here]

### Stage 3: Output

**Input**: [From previous stage]
**Output**: [Final format, destination]
**Processing**: [What happens here]

## Data Formats

[Describe key data structures, file formats, schemas]

## Error Handling

[What happens when a stage fails?]

## Change Record

- YYYY-MM-DD: Initial draft
".

(** Written to [specs/04-algorithms/algorithm-template.md]. *)
Definition ALGORITHM_SPEC_TEMPLATE : string :=
"# Algorithm: [Name]

**Status**: Draft

<!--
This spec describes a computational algorithm in detail.
Reference papers, define mathematics precisely, specify edge cases.

Delete these instructions once you've documented the algorithm.
-->

## Overview

[What does this algorithm do? Where does it come from?]

## References

- [Paper/textbook citation]
- [Implementation reference, if any]

## Mathematical Definition

[Precise mathematical description. Use LaTeX notation if helpful.]

## Inputs

| Parameter | Type | Description | Constraints |
|-----------|------|-------------|-------------|
| x | array | Input signal | Length > 0 |

## Outputs

| Output | Type | Description |
|--------|------|-------------|
| result | float | Computed value |

## Algorithm Steps

1. [Step 1]
2. [Step 2]
3. [Step 3]

## Edge Cases

- [What happens with empty input?]
- [What happens with NaN values?]
- [Numerical stability concerns?]

## Validation Approach

[How will you verify the implementation is correct?]

## Change Record

- YYYY-MM-DD: Initial draft
".

(** Written to [specs/05-validation/validation-plan.md]. *)
Definition VALIDATION_SPEC_TEMPLATE : string :=
"# Validation Plan

**Status**: Draft

<!--
This spec describes how you'll validate that your implementation is correct.
Especially important for scientific code where correctness matters.

Delete these instructions once you've documented your validation plan.
-->

## Overview

[What are you validating? What does " +:+ dquote +:+ "correct" +:+ dquote +:+ " mean for this project?]

## Test Cases

### Unit Tests

[Tests for individual functions/components]

### Integration Tests

[Tests for components working together]

### Known-Answer Tests

[Tests against published results or analytical solutions]

| Test Case | Input | Expected Output | Source |
|-----------|-------|-----------------|--------|
| [Name] | [Input description] | [Expected result] | [Paper/reference] |

## Validation Data

[What test datasets exist? Where do they come from?]

## Acceptance Criteria

[What must pass before the implementation is considered valid?]

## Change Record

- YYYY-MM-DD: Initial draft
".

(** Rendered into [README.md]. *)
Definition readme_template (name description : string) : string :=
"# " +:+ name +:+ "

" +:+ description +:+ "

## Overview

See [specs/00-overview.md](specs/00-overview.md) for project goals and scope.

## Project Structure

```
" +:+ name +:+ "/
├── specs/           # Specifications (start here!)
│   ├── spec-format.md      # How to write specs
│   ├── 00-overview.md      # Project overview
│   ├── 01-requirements/    # What the system should do
│   ├── 02-architecture/    # How components fit together
│   ├── 03-implementation/  # Implementation details
│   └── 99-decisions/       # Architecture decision records
├── src/             # Source code
└── tests/           # Test code
```

## Getting Started

1. Read `specs/00-overview.md` to understand the project
2. Review `specs/spec-format.md` for how to write specs
3. Start with requirements in `specs/01-requirements/`

## Development Approach

This project uses **spec-driven development**:

1. Write specifications before code
2. Use AI assistants to help refine specs and implement them
3. Verify implementations against specs
4. Update specs as requirements evolve

See [spec-driven.science](https://spec-driven.science) for more on this approach.
".

(** Rendered into [CONTRIBUTING.md]. *)
Definition contributing_template (name : string) : string :=
"# Contributing to " +:+ name +:+ "

## Development Approach

This project uses spec-driven development. Before writing code:

1. **Check for an existing spec** in the `specs/` directory
2. **Write or update a spec** if one doesn't exist
3. **Get the spec reviewed** before implementing
4. **Reference the spec** in your code and commits

## Commit Messages

Use clear, descriptive commit messages:

```
Add amplitude calculation per spec 03-implementation/amplitude.md

Implements the RMS amplitude algorithm as specified. Includes
edge case handling for empty windows.
```

## Code Style

- Follow existing patterns in the codebase
- Include docstrings for public functions
- Write tests for new functionality

## Pull Request Process

1. Ensure your changes align with a spec
2. Update specs if your changes affect requirements
3. Include tests for new functionality
4. Reference relevant specs in your PR description

## Questions?

Open an issue for discussion before starting significant work.
".

(** Rendered into [.claude/CLAUDE.md]. *)
Definition claude_md_template (name : string) : string :=
"# Project: " +:+ name +:+ "

## Overview

This is a spec-driven scientific project. Specifications live in the `specs/` directory and should be referenced before implementing any functionality.

## Key Principles

- **Specs first**: Check `specs/` before writing code. If no spec exists, write one.
- **Small steps**: Implement incrementally. One function, one test, verify, repeat.
- **Ask questions**: If a spec is unclear, ask for clarification rather than guessing.

## Project Structure

- `specs/` — Specifications (requirements, architecture, algorithms)
- `src/` — Source code
- `tests/` — Test code

## Working With Me

- Reference specific specs when discussing implementation
- Propose spec updates if you notice gaps or issues
- Keep implementations focused—one concept at a time
- I'll verify your suggestions against the specs

## Spec Format

See `specs/spec-format.md` for how specifications are written in this project.
".

(** Rendered into [.cursorrules]. *)
Definition cursorrules_template (name : string) : string :=
"# Project: " +:+ name +:+ "

This is a spec-driven scientific project.

## Key Rules

1. Check `specs/` directory before implementing anything
2. Reference specific specs when discussing code
3. If no spec exists for a feature, write one first
4. Keep changes small and incremental
5. Verify implementations against spec requirements

## Project Structure

- `specs/` — Specifications (start here!)
- `src/` — Source code
- `tests/` — Test code

## Spec Format

See `specs/spec-format.md` for specification conventions.
".

(** Rendered into [.github/copilot-instructions.md]. *)
Definition copilot_instructions_template (name : string) : string :=
"# Project: " +:+ name +:+ "

This is a spec-driven scientific project. Specifications in `specs/` define what should be built.

## Guidelines

- Check `specs/` before implementing features
- Reference specs when writing code
- Write specs for new functionality before implementing
- Keep implementations focused and incremental
- Follow patterns established in existing code

## Structure

- `specs/` — Specifications (requirements, architecture, decisions)
- `src/` — Source code
- `tests/` — Test code
".

(** ** Paths

    A [pathlib] path: whether it is anchored at ["/"], and its components.
    Parsing drops empty and ["."] components and keeps [".."]. *)

Record PurePath := mkPath { absolute : bool; parts : list string }.

Fixpoint split_slash (acc : string) (s : string) : list string :=
  match s with
  | EmptyString => [String.rev acc]
  | String c r =>
      if Ascii.eqb c "/" then String.rev acc :: split_slash "" r
      else split_slash (String c acc) r
  end.

Definition is_component (c : string) : bool :=
  negb (String.eqb c "") && negb (String.eqb c ".").

(** [Path(s)] *)
Definition Path (s : string) : PurePath :=
  mkPath (starts_with "/" s) (List.filter is_component (split_slash "" s)).

(** [p / s] *)
Definition joinpath (p : PurePath) (s : string) : PurePath :=
  let q := Path s in
  if absolute q then q else mkPath (absolute p) (parts p ++ parts q).

Notation "p </> s" := (joinpath p s) (at level 40, left associativity).

Fixpoint join_slash (l : list string) : string :=
  match l with
  | [] => ""
  | [c] => c
  | c :: r => c +:+ "/" +:+ join_slash r
  end.

(** [str(p)] *)
Definition path_str (p : PurePath) : string :=
  if absolute p then "/" +:+ join_slash (parts p)
  else match parts p with [] => "." | l => join_slash l end.

(** The absolute key of a path in the file tree of world [w]. *)
Definition path_key (w : World) (p : PurePath) : list string :=
  if absolute p then parts p else cwd w ++ parts p.

(** ** The file tree and the system calls on it *)

(** The kernel's walk along [comps] from the directory entry [n] found at
    [cur]: every component but the last must be a directory. *)
Fixpoint resolve (t : gmap (list string) node) (cur : list string) (n : node)
    (comps : list string) : errno + node :=
  match comps with
  | [] => inr n
  | c :: cs =>
      match n with
      | File _ => inl ENOTDIR
      | Dir =>
          match t !! (cur ++ [c]) with
          | None => inl ENOENT
          | Some n' => resolve t (cur ++ [c]) n' cs
          end
      end
  end.

Definition stat (t : gmap (list string) node) (k : list string) : errno + node :=
  resolve t [] Dir k.

Definition os_stat (p : PurePath) : M node := λ w,
  match stat (fs w) (path_key w p) with
  | inr n => Ok n w
  | inl e => Raise (OSError e) w
  end.

(** [pathlib._ignore_error] *)
Definition ignore_error (e : exn) : bool :=
  match e with
  | OSError ENOENT | OSError ENOTDIR => true
  | _ => false
  end.

(** [p.exists()] *)
Definition exists_ (p : PurePath) : M bool :=
  try_except (os_stat p;; mret true)
    (λ e, if ignore_error e then Some (mret false) else None).

(** [p.is_dir()] *)
Definition is_dir (p : PurePath) : M bool :=
  try_except (n ← os_stat p; mret (match n with Dir => true | File _ => false end))
    (λ e, if ignore_error e then Some (mret false) else None).

(** [os.mkdir(p)] *)
Definition os_mkdir (p : PurePath) : M unit := λ w,
  let k := path_key w p in
  match k with
  | [] => Raise (OSError EEXIST) w
  | _ =>
      match stat (fs w) (removelast k) with
      | inl e => Raise (OSError e) w
      | inr (File _) => Raise (OSError ENOTDIR) w
      | inr Dir =>
          match fs w !! k with
          | Some _ => Raise (OSError EEXIST) w
          | None => Ok () (record_event (EvMkdir k) (set_fs (<[k := Dir]> (fs w)) w))
          end
      end
  end.

(** What [Path.mkdir] does with an [OSError] other than [FileNotFoundError]. *)
Definition mkdir_exists (p : PurePath) (exist_ok : bool) (e : exn) : M unit :=
  d ← is_dir p;
  if negb exist_ok || negb d then raise e else mret ().

(** [p.mkdir(parents=False, exist_ok=exist_ok)] *)
Definition mkdir_here (p : PurePath) (exist_ok : bool) : M unit :=
  try_except (os_mkdir p)
    (λ e, match e with
          | OSError ENOENT => None
          | OSError _ => Some (mkdir_exists p exist_ok e)
          | _ => None
          end).

(** [p.mkdir(parents=True, exist_ok=exist_ok)] for the path with components
    [rev rparts]: the recursion of [Path.mkdir] on [self.parent]. *)
Fixpoint mkdir_parents (a : bool) (rparts : list string) (exist_ok : bool) : M unit :=
  let p := mkPath a (rev rparts) in
  try_except (os_mkdir p)
    (λ e, match e with
          | OSError ENOENT =>
              match rparts with
              | [] => None
              | _ :: rparent =>
                  Some (mkdir_parents a rparent true;; mkdir_here p exist_ok)
              end
          | OSError _ => Some (mkdir_exists p exist_ok e)
          | _ => None
          end).

(** [p.mkdir(parents=parents, exist_ok=exist_ok)] *)
Definition mkdir (p : PurePath) (parents exist_ok : bool) : M unit :=
  if parents then mkdir_parents (absolute p) (rev (parts p)) exist_ok
  else mkdir_here p exist_ok.

(** [open(p, 'w')], write, close. *)
Definition write_text (p : PurePath) (data : string) : M unit := λ w,
  let k := path_key w p in
  match k with
  | [] => Raise (OSError EISDIR) w
  | _ =>
      match stat (fs w) (removelast k) with
      | inl e => Raise (OSError e) w
      | inr (File _) => Raise (OSError ENOTDIR) w
      | inr Dir =>
          match fs w !! k with
          | Some Dir => Raise (OSError EISDIR) w
          | _ => Ok () (record_event (EvWrite k data) (set_fs (<[k := File data]> (fs w)) w))
          end
      end
  end.

(** [os.utime(p, None)] *)
Definition os_utime (p : PurePath) : M unit := λ w,
  match stat (fs w) (path_key w p) with
  | inr _ => Ok () (record_event (EvUtime (path_key w p)) w)
  | inl e => Raise (OSError e) w
  end.

(** [os.close(os.open(p, O_CREAT | O_WRONLY))] *)
Definition os_open_creat (p : PurePath) : M unit := λ w,
  let k := path_key w p in
  match k with
  | [] => Raise (OSError EISDIR) w
  | _ =>
      match stat (fs w) (removelast k) with
      | inl e => Raise (OSError e) w
      | inr (File _) => Raise (OSError ENOTDIR) w
      | inr Dir =>
          match fs w !! k with
          | Some Dir => Raise (OSError EISDIR) w
          | Some (File _) => Ok () w
          | None => Ok () (record_event (EvCreate k) (set_fs (<[k := File ""]> (fs w)) w))
          end
      end
  end.

(** [p.touch()], with its default [exist_ok=True]. *)
Definition touch (p : PurePath) : M unit :=
  bumped ← try_except (os_utime p;; mret true)
              (λ e, match e with OSError _ => Some (mret false) | _ => None end);
  if bumped : bool then mret () else os_open_creat p.

(** [for x in l: body(x)] *)
Fixpoint for_each {A} (l : list A) (body : A → M unit) : M unit :=
  match l with
  | [] => mret ()
  | x :: r => body x;; for_each r body
  end.

Definition get_clock : M date := λ w, Ok (clock w) w.

(** ** Project Builder *)

Definition create_project (inputs : Inputs) : M PurePath :=
  let name := name inputs in
  let description := description inputs in
  let project_type := project_type inputs in
  let ai_tool := ai_tool inputs in
  let root := Path name in
  found ← exists_ root;
  (if found : bool then
     print ("
Error: Directory '" +:+ name +:+ "' already exists.");;
     raise (SystemExit 1)
   else mret ());;
  let dirs := [
    root </> "specs" </> "01-requirements";
    root </> "specs" </> "02-architecture";
    root </> "specs" </> "03-implementation";
    root </> "specs" </> "99-decisions";
    root </> "src";
    root </> "tests"
  ] in
  let dirs :=
    if String.eqb project_type "Algorithm implementation" then
      dirs ++ [root </> "specs" </> "04-algorithms"; root </> "specs" </> "05-validation"]
    else dirs in
  for_each dirs (λ d, mkdir d true true);;
  write_text (root </> "specs" </> "spec-format.md") SPEC_FORMAT;;
  today ← get_clock;
  write_text (root </> "specs" </> "00-overview.md") (overview_template today name description);;
  write_text (root </> "specs" </> "01-requirements" </> "functional.md") FUNCTIONAL_REQUIREMENTS;;
  write_text (root </> "specs" </> "99-decisions" </> "adr-000-template.md") ADR_TEMPLATE;;
  (if String.eqb project_type "Data pipeline" then
     write_text (root </> "specs" </> "02-architecture" </> "data-flow.md") DATA_FLOW_TEMPLATE
   else mret ());;
  (if String.eqb project_type "Algorithm implementation" then
     write_text (root </> "specs" </> "04-algorithms" </> "algorithm-template.md") ALGORITHM_SPEC_TEMPLATE;;
     write_text (root </> "specs" </> "05-validation" </> "validation-plan.md") VALIDATION_SPEC_TEMPLATE
   else mret ());;
  write_text (root </> "README.md") (readme_template name description);;
  write_text (root </> "CONTRIBUTING.md") (contributing_template name);;
  (if String.eqb ai_tool "Claude Code" then
     mkdir (root </> ".claude") false true;;
     write_text (root </> ".claude" </> "CLAUDE.md") (claude_md_template name)
   else if String.eqb ai_tool "Cursor" then
     write_text (root </> ".cursorrules") (cursorrules_template name)
   else if String.eqb ai_tool "GitHub Copilot" then
     mkdir (root </> ".github") false true;;
     write_text (root </> ".github" </> "copilot-instructions.md") (copilot_instructions_template name)
   else mret ());;
  for_each [root </> "src"; root </> "tests"] (λ d, touch (d </> ".gitkeep"));;
  mret root.

(** ** Completion Reporter and entry point *)

Definition print_next_steps (root : PurePath) (ai_tool : string) : M unit :=
  let r := path_str root in
  print ("
✓ Project created: " +:+ r +:+ "/

Next steps:

  1. cd " +:+ r +:+ "
  2. Open specs/00-overview.md and flesh out your project description
  3. Read specs/spec-format.md to understand how to write specs
  4. Run 'git init' to start version control
  5. Start a conversation with your AI assistant about requirements
");;
  if String.eqb ai_tool "Claude Code" then
    print "     Your .claude/CLAUDE.md is ready — Claude Code will read it automatically.
"
  else if String.eqb ai_tool "Cursor" then
    print "     Your .cursorrules is ready — Cursor will read it automatically.
"
  else if String.eqb ai_tool "GitHub Copilot" then
    print "     Your .github/copilot-instructions.md is ready for Copilot.
"
  else mret ().


(** The exit status of the process that ran [main]. *)
Definition exit_status {A} (r : result A) : option Z :=
  match r with
  | Ok _ _ => Some 0
  | Raise (SystemExit c) _ => Some c
  | Raise _ _ => Some 1
  | Cut => None
  end.

(** ** What the specification expects *)

(** A response selects option [i] of a menu of [n] entries. *)
Definition valid_choice (n : nat) (line : string) (i : Z) : Prop :=
  py_int (strip line) = Some i ∧ 1 ≤ i ≤ Z.of_nat n.

(** A response is non-numeric or out of range. *)
Definition invalid_choice (n : nat) (line : string) : Prop :=
  ∀ i, py_int (strip line) = Some i → ¬ (1 ≤ i ≤ Z.of_nat n).

Fixpoint menu_lines (i : nat) (options : list string) : list string :=
  match options with
  | [] => []
  | option :: rest =>
      ln ("  " +:+ str_nat i +:+ ". " +:+ option) :: menu_lines (S i) rest
  end.

(** What [prompt_choice] prints before it reads anything. *)
Definition menu (question : string) (options : list string) : list string :=
  ln ("
" +:+ question) :: menu_lines 1 options.

(** What [prompt_choice] prints for the rejected responses [bad]: the prompt
    that was answered, then the guidance message. *)
Definition retries (options : list string) (bad : list string) : list string :=
  flat_map (λ _, ["Enter number: "; ln (guidance options)]) bad.

(** What the name loop prints for the responses [ls] it reads: the complaint
    that precedes each of its prompts. *)
Definition name_retries (ls : list string) : list string :=
  flat_map (λ _, [ln "Project name is required."; "Project name: "]) ls.

(** What [gather_inputs] prints while it reads the project name, when the
    responses [blanks] strip to nothing and the next one does not. *)
Definition name_dialogue (blanks : list string) : list string :=
  "Project name (e.g., seismic-analysis): " :: name_retries blanks.

(** Everything [gather_inputs] prints in a dialogue that succeeds, given the
    blank name responses and the rejected menu responses. *)
Definition gather_dialogue (blanks bad1 bad2 : list string) : list string :=
  [ln "
=== Spec-Driven Project Scaffolder ===
"] ++ name_dialogue blanks ++
  ["One-line description" +:+ " [" +:+ DEFAULT_DESCRIPTION +:+ "]: "] ++
  menu "Project type:" PROJECT_TYPES ++ retries PROJECT_TYPES bad1 ++ ["Enter number: "] ++
  menu "Primary AI coding assistant:" AI_TOOLS ++ retries AI_TOOLS bad2 ++ ["Enter number: "].

(** ** Auxiliary views of the file tree *)

(** Every entry other than a top-level one sits in a directory. *)
Definition wf_tree (t : gmap (list string) node) : Prop :=
  ∀ k c n, t !! (k ++ [c]) = Some n → k = [] ∨ t !! k = Some Dir.

(** The tree after creating the directories [cur/c1], [cur/c1/c2], ... *)
Fixpoint mkchain (t : gmap (list string) node) (cur : list string)
    (comps : list string) : gmap (list string) node :=
  match comps with
  | [] => t
  | c :: cs => mkchain (<[cur ++ [c] := Dir]> t) (cur ++ [c]) cs
  end.

(** Their keys, outermost first. *)
Fixpoint chain_keys (cur : list string) (comps : list string) : list (list string) :=
  match comps with
  | [] => []
  | c :: cs => (cur ++ [c]) :: chain_keys (cur ++ [c]) cs
  end.

(** The tree [base] with the entries [l] added below the directory [R]; the
    entries carry paths relative to [R], the newest first. *)
Definition graft (R : list string) (l : list (list string * node))
    (base : gmap (list string) node) : gmap (list string) node :=
  foldr (λ e t, <[R ++ e.1 := e.2]> t) base l.

(** Lookup in such a list of entries. *)
Fixpoint assoc (k : list string) (l : list (list string * node)) : option node :=
  match l with
  | [] => None
  | e :: r => if decide (e.1 = k) then Some e.2 else assoc k r
  end.

(** [resolve] read off the entries below [R]. *)
Fixpoint rresolve (l : list (list string * node)) (cur : list string) (n : node)
    (comps : list string) : errno + node :=
  match comps with
  | [] => inr n
  | c :: cs =>
      match n with
      | File _ => inl ENOTDIR
      | Dir =>
          match assoc (cur ++ [c]) l with
          | None => inl ENOENT
          | Some n' => rresolve l (cur ++ [c]) n' cs
          end
      end
  end.

(** The entries below [R] have non-empty relative paths. *)
Definition proper (l : list (list string * node)) : bool :=
  forallb (λ e, match e.1 with [] => false | _ => true end) l.

(** Where the keys of the paths of a world start: at ["/"] or at the working
    directory. *)
Definition anchor (a : bool) (C : list string) : list string :=
  if a then [] else C.

(** The world after the directories [E/c1], [E/c1/c2], ... were made. *)
Definition after_mkdirs (E comps : list string) (w : World) : World :=
  mkWorld (cwd w) (mkchain (fs w) E comps) (clock w) (stdin w) (stdout w)
          (events w ++ map EvMkdir (chain_keys E comps)).

(** ** The project plan

    What a successful [create_project] does below the project root, as a log
    with paths relative to the root, in the order of the program: the
    directories of the project type, the files of the project type, the
    configuration of the AI tool, the two markers. *)

Definition plan_dirs (project_type : string) : list event :=
  [EvMkdir ["specs"];
   EvMkdir ["specs"; "01-requirements"];
   EvMkdir ["specs"; "02-architecture"];
   EvMkdir ["specs"; "03-implementation"];
   EvMkdir ["specs"; "99-decisions"];
   EvMkdir ["src"];
   EvMkdir ["tests"]] ++
  (if String.eqb project_type "Algorithm implementation" then
     [EvMkdir ["specs"; "04-algorithms"]; EvMkdir ["specs"; "05-validation"]]
   else []).

Definition plan_files (today : date) (inputs : Inputs) : list event :=
  [EvWrite ["specs"; "spec-format.md"] SPEC_FORMAT;
   EvWrite ["specs"; "00-overview.md"]
     (overview_template today (name inputs) (description inputs));
   EvWrite ["specs"; "01-requirements"; "functional.md"] FUNCTIONAL_REQUIREMENTS;
   EvWrite ["specs"; "99-decisions"; "adr-000-template.md"] ADR_TEMPLATE] ++
  (if String.eqb (project_type inputs) "Data pipeline" then
     [EvWrite ["specs"; "02-architecture"; "data-flow.md"] DATA_FLOW_TEMPLATE]
   else []) ++
  (if String.eqb (project_type inputs) "Algorithm implementation" then
     [EvWrite ["specs"; "04-algorithms"; "algorithm-template.md"] ALGORITHM_SPEC_TEMPLATE;
      EvWrite ["specs"; "05-validation"; "validation-plan.md"] VALIDATION_SPEC_TEMPLATE]
   else []) ++
  [EvWrite ["README.md"] (readme_template (name inputs) (description inputs));
   EvWrite ["CONTRIBUTING.md"] (contributing_template (name inputs))].

Definition plan_ai (inputs : Inputs) : list event :=
  if String.eqb (ai_tool inputs) "Claude Code" then
    [EvMkdir [".claude"];
     EvWrite [".claude"; "CLAUDE.md"] (claude_md_template (name inputs))]
  else if String.eqb (ai_tool inputs) "Cursor" then
    [EvWrite [".cursorrules"] (cursorrules_template (name inputs))]
  else if String.eqb (ai_tool inputs) "GitHub Copilot" then
    [EvMkdir [".github"];
     EvWrite [".github"; "copilot-instructions.md"]
       (copilot_instructions_template (name inputs))]
  else [].

Definition plan (today : date) (inputs : Inputs) : list event :=
  plan_dirs (project_type inputs) ++ plan_files today inputs ++ plan_ai inputs ++
  [EvCreate ["src"; ".gitkeep"]; EvCreate ["tests"; ".gitkeep"]].

(** An event of the plan, placed below [R]. *)
Definition shift (R : list string) (e : event) : event :=
  match e with
  | EvMkdir k => EvMkdir (R ++ k)
  | EvWrite k data => EvWrite (R ++ k) data
  | EvCreate k => EvCreate (R ++ k)
  | EvUtime k => EvUtime (R ++ k)
  end.

(** The entry an event leaves in the tree. *)
Definition entry_of (e : event) : list (list string * node) :=
  match e with
  | EvMkdir k => [(k, Dir)]
  | EvWrite k data => [(k, File data)]
  | EvCreate k => [(k, File "")]
  | EvUtime _ => []
  end.

(** The entries a log leaves, the newest first. *)
Definition entries (log : list event) : list (list string * node) :=
  rev (flat_map entry_of log).

(** The paths a log writes files at (written or created), oldest first. *)
Definition files_written (log : list event) : list (list string) :=
  flat_map (λ e, match e with
                 | EvWrite k _ | EvCreate k => [k]
                 | _ => []
                 end) log.

(** The directories a log creates, oldest first. *)
Definition dirs_created (log : list event) : list (list string) :=
  flat_map (λ e, match e with EvMkdir k => [k] | _ => [] end) log.

(** The key of the project root of [name] in a world with working directory
    [C]. *)
Definition root_key (C : list string) (name : string) : list string :=
  anchor (absolute (Path name)) C ++ parts (Path name).

(** The root of project [name] can be made in world [w]: the tree is well
    formed, the working directory is a directory, the walk to the root ends
    at a missing component without meeting a regular file, and no component
    of the name is [".."] (which the lexical model would misread). *)
Definition creatable (w : World) (name : string) : Prop :=
  wf_tree (fs w) ∧
  stat (fs w) (cwd w) = inr Dir ∧
  stat (fs w) (root_key (cwd w) name) = inl ENOENT ∧
  ".." ∉ parts (Path name).

(** The files every project gets, relative to its root. *)
Definition base_files : list (list string) :=
  [["specs"; "spec-format.md"];
   ["specs"; "00-overview.md"];
   ["specs"; "01-requirements"; "functional.md"];
   ["specs"; "99-decisions"; "adr-000-template.md"];
   ["README.md"];
   ["CONTRIBUTING.md"];
   ["src"; ".gitkeep"];
   ["tests"; ".gitkeep"]].

(** The file set the specification documents for a project type and an AI
    tool: the base set plus the conditional additions. *)
Definition expected_files (project_type ai_tool : string) : list (list string) :=
  base_files ++
  (if String.eqb project_type "Data pipeline" then
     [["specs"; "02-architecture"; "data-flow.md"]]
   else []) ++
  (if String.eqb project_type "Algorithm implementation" then
     [["specs"; "04-algorithms"; "algorithm-template.md"];
      ["specs"; "05-validation"; "validation-plan.md"]]
   else []) ++
  (if String.eqb ai_tool "Claude Code" then [[".claude"; "CLAUDE.md"]]
   else if String.eqb ai_tool "Cursor" then [[".cursorrules"]]
   else if String.eqb ai_tool "GitHub Copilot" then [[".github"; "copilot-instructions.md"]]
   else []).

(** The keys of the regular files among some entries. *)
Definition file_keys (l : list (list string * node)) : list (list string) :=
  flat_map (λ e, match e.2 with File _ => [e.1] | Dir => [] end) l.

(** The catalog: every template as a function of the clock, the project name
    and the description. *)
Inductive template :=
  | SpecFormat | Overview | FunctionalRequirements | Adr | DataFlow
  | AlgorithmSpec | ValidationSpec | Readme | Contributing
  | ClaudeMd | Cursorrules | CopilotInstructions.

Definition render (tpl : template) (today : date) (name description : string) : string :=
  match tpl with
  | SpecFormat => SPEC_FORMAT
  | Overview => overview_template today name description
  | FunctionalRequirements => FUNCTIONAL_REQUIREMENTS
  | Adr => ADR_TEMPLATE
  | DataFlow => DATA_FLOW_TEMPLATE
  | AlgorithmSpec => ALGORITHM_SPEC_TEMPLATE
  | ValidationSpec => VALIDATION_SPEC_TEMPLATE
  | Readme => readme_template name description
  | Contributing => contributing_template name
  | ClaudeMd => claude_md_template name
  | Cursorrules => cursorrules_template name
  | CopilotInstructions => copilot_instructions_template name
  end.

(** The templates that are constants of the program. *)
Definition static_templates : list template :=
  [SpecFormat; FunctionalRequirements; Adr; DataFlow; AlgorithmSpec; ValidationSpec].




(** A line [**Status**: value] of a document. *)
Definition status_line (value : string) : string :=
  "
**Status**: " +:+ value +:+ "
".

Definition has_status_line (data : string) : Prop :=
  ∃ value, value ≠ "" ∧ occursb "
" value = false ∧ occurs_in (status_line value) data.

(** ** Sample inputs and worlds *)

(** The inputs of the end-to-end scenario of the specification. *)
Definition seismic : Inputs :=
  mkInputs "seismic-analysis" "Detect quakes" "Algorithm implementation" "Claude Code".

(** Inputs whose name has two components. *)
Definition nested : Inputs := mkInputs "a/b" "A nested name" "General" "Other/None".

(** A world with an empty file tree whose working directory is ["/"]. *)
Definition empty_world : World :=
  mkWorld [] ∅ (mkDate 2026 11 3) [] [] [].

(** What [create_project] prints when the root exists. *)
Definition exists_message (name : string) : string :=
  ln ("
Error: Directory '" +:+ name +:+ "' already exists.").

(** The log of mutating system calls after a run, however it ended. *)
Definition log_of {A} (r : result A) : list event :=
  match r with Ok _ w | Raise _ w => events w | Cut => [] end.

(** Whether a directory is not the [.claude] of the AI tool. *)
Definition not_claude (k : list string) : bool :=
  negb (bool_decide (last k = Some ".claude")).

(** The directories of the scenario below its root, in the order made. *)
Definition seismic_dirs : list (list string) :=
  [["specs"]; ["specs"; "01-requirements"]; ["specs"; "02-architecture"];
   ["specs"; "03-implementation"]; ["specs"; "99-decisions"]; ["src"]; ["tests"];
   ["specs"; "04-algorithms"]; ["specs"; "05-validation"]; [".claude"]].

(** The files of the scenario below its root, in the order written. *)
Definition seismic_files : list (list string) :=
  [["specs"; "spec-format.md"]; ["specs"; "00-overview.md"];
   ["specs"; "01-requirements"; "functional.md"];
   ["specs"; "99-decisions"; "adr-000-template.md"];
   ["specs"; "04-algorithms"; "algorithm-template.md"];
   ["specs"; "05-validation"; "validation-plan.md"];
   ["README.md"]; ["CONTRIBUTING.md"]; [".claude"; "CLAUDE.md"];
   ["src"; ".gitkeep"]; ["tests"; ".gitkeep"]].

(** ** Frames and further views of a run *)

(** Two worlds with the same working directory, file tree, clock and log of
    system calls: at most the standard streams differ. *)
Definition same_tree (w w' : World) : Prop :=
  cwd w' = cwd w ∧ fs w' = fs w ∧ clock w' = clock w ∧ events w' = events w.




(** The directories of a project below its root, in the order the program
    makes them: [specs] and the six of the base list, the two of an algorithm
    implementation, the directory of the AI tool's configuration. *)
Definition expected_dirs (project_type ai_tool : string) : list (list string) :=
  [["specs"]; ["specs"; "01-requirements"]; ["specs"; "02-architecture"];
   ["specs"; "03-implementation"]; ["specs"; "99-decisions"]; ["src"]; ["tests"]] ++
  (if String.eqb project_type "Algorithm implementation" then
     [["specs"; "04-algorithms"]; ["specs"; "05-validation"]]
   else []) ++
  (if String.eqb ai_tool "Claude Code" then [[".claude"]]
   else if String.eqb ai_tool "Cursor" then []
   else if String.eqb ai_tool "GitHub Copilot" then [[".github"]]
   else []).

(** The path a system call acted on. *)
Definition event_key (e : event) : list string :=
  match e with EvMkdir k | EvWrite k _ | EvCreate k | EvUtime k => k end.

(** Every entry of a list of entries below a root sits in the root or in a
    directory of the list. *)
Definition housed (l : list (list string * node)) : bool :=
  forallb (λ e, match removelast e.1 with
                | [] => true
                | p => match assoc p l with Some Dir => true | _ => false end
                end) l.

(** The configuration file that [print_next_steps] names for an AI tool,
    relative to the project root. *)
Definition reported_config (ai_tool : string) : option (list string) :=
  if String.eqb ai_tool "Claude Code" then Some [".claude"; "CLAUDE.md"]
  else if String.eqb ai_tool "Cursor" then Some [".cursorrules"]
  else if String.eqb ai_tool "GitHub Copilot" then Some [".github"; "copilot-instructions.md"]
  else None.

(** The line feed. *)
Definition newline : ascii := "010"%char.

(** A world whose tree holds the regular file [/a] and nothing else. *)
Definition file_world : World :=
  mkWorld [] {[ ["a"] := File "x" ]} (mkDate 2026 11 3) [] [] [].

(** ** Strings: stripping and occurrences *)

Lemma lstrip_first s c : first_char (lstrip s) = Some c → is_space c = false.
Proof.
  induction s as [|a s IH]; simpl; [discriminate|].
  destruct (is_space a) eqn:Ha; [exact IH|].
  simpl. intros [= <-]. exact Ha.
Qed.

Lemma rstrip_cons c r :
  rstrip (String c r) = EmptyString ∨ ∃ r', rstrip (String c r) = String c r'.
Proof.
  simpl. destruct (rstrip r); [destruct (is_space c)|]; eauto.
Qed.

Lemma rstrip_first s c : first_char (rstrip s) = Some c → first_char s = Some c.
Proof.
  destruct s as [|a r]; [discriminate|].
  destruct (rstrip_cons a r) as [-> | [r' ->]]; [discriminate|].
  simpl. congruence.
Qed.

Lemma rstrip_last s c : last_char (rstrip s) = Some c → is_space c = false.
Proof.
  induction s as [|a s IH]; simpl; [discriminate|].
  destruct (rstrip s) as [|b t] eqn:E.
  - destruct (is_space a) eqn:Ha; simpl; [discriminate|].
    intros [= <-]. exact Ha.
  - intros H. apply IH. exact H.
Qed.

Lemma strip_no_leading_space s c : first_char (strip s) = Some c → is_space c = false.
Proof. unfold strip. intros H. eapply lstrip_first, rstrip_first, H. Qed.

Lemma strip_no_trailing_space s c : last_char (strip s) = Some c → is_space c = false.
Proof. unfold strip. apply rstrip_last. Qed.

Lemma eqb_empty_false s : s ≠ "" → String.eqb s "" = false.
Proof. intros H. apply String.eqb_neq. exact H. Qed.

Lemma app_assoc_str (a b c : string) : (a +:+ b) +:+ c = a +:+ (b +:+ c).
Proof. induction a; simpl; [reflexivity|]. unfold String.app in *. simpl. by f_equal. Qed.

Lemma starts_with_spec s t : starts_with s t = true ↔ ∃ post, t = s +:+ post.
Proof.
  revert t. induction s as [|a s IH]; intros t; simpl.
  - split; [|done]. intros _. by exists t.
  - destruct t as [|b t].
    + split; [done|]. intros [post H]. discriminate H.
    + rewrite andb_true_iff, IH. split.
      * intros [Hab [post ->]]. apply Ascii.eqb_eq in Hab as ->. by exists post.
      * intros [post H]. injection H as -> ->.
        split; [apply Ascii.eqb_refl | by exists post].
Qed.

Lemma occursb_spec s t : occursb s t = true ↔ occurs_in s t.
Proof.
  unfold occurs_in. induction t as [|b t IH].
  - simpl. rewrite orb_false_r, starts_with_spec. split.
    + intros [post H]. by exists "", post.
    + intros [[|? ?] [post H]]; [by exists post | discriminate H].
  - cbn [occursb]. rewrite orb_true_iff, IH, starts_with_spec. split.
    + intros [[post H] | (pre & post & ->)].
      * by exists "", post.
      * by exists (String b pre), post.
    + intros [[|a pre] [post H]].
      * left. by exists post.
      * right. injection H as -> ->. by exists pre, post.
Qed.

Lemma occurs_in_mid (pre s post : string) : occurs_in s (pre +:+ s +:+ post).
Proof. by exists pre, post. Qed.

Lemma occurs_in_app_r (a s t : string) : occurs_in s t → occurs_in s (a +:+ t).
Proof.
  intros (pre & post & ->). exists (a +:+ pre), post. by rewrite app_assoc_str.
Qed.

Lemma occurs_in_app_l (s t b : string) : occurs_in s t → occurs_in s (t +:+ b).
Proof.
  intros (pre & post & ->). exists pre, (post +:+ b).
  by rewrite !app_assoc_str.
Qed.

(** ** Input Collector: the menu loop *)

Lemma bind_run {A B} (m : M A) (f : A → M B) w :
  (m ≫= f) w =
  match m w with
  | Ok a w' => f a w'
  | Raise e w' => Raise e w'
  | Cut => Cut
  end.
Proof. reflexivity. Qed.

Ltac io :=
  repeat (rewrite ?bind_run;
          unfold print, input, raise, emit, set_stdin, record_event, set_fs, mret, M_ret;
          cbn).

Lemma print_options_run options : ∀ i c t d inp out ev,
  print_options i options (mkWorld c t d inp out ev) =
  Ok () (mkWorld c t d inp (out ++ menu_lines i options) ev).
Proof.
  induction options as [|o r IH]; intros; simpl.
  - by rewrite app_nil_r.
  - rewrite bind_run. io. rewrite IH. by rewrite <- app_assoc.
Qed.

Lemma invalid_choice_test n line i :
  invalid_choice n line → py_int (strip line) = Some i →
  (1 <=? i) && (i <=? Z.of_nat n) = false.
Proof.
  intros H Hi. specialize (H i Hi).
  destruct (1 <=? i) eqn:E1, (i <=? Z.of_nat n) eqn:E2; try reflexivity.
  exfalso. apply H. split; [by apply Z.leb_le | by apply Z.leb_le].
Qed.

Lemma choice_body_bad options line c t d inp out ev :
  invalid_choice (length options) line →
  prompt_choice_body options (mkWorld c t d (line :: inp) out ev) =
  Ok None (mkWorld c t d inp (out ++ retries options [line]) ev).
Proof.
  intros H. unfold prompt_choice_body. rewrite bind_run. cbn.
  destruct (py_int (strip line)) as [i|] eqn:Hi.
  - rewrite (invalid_choice_test _ _ _ H Hi). io. by rewrite <- app_assoc.
  - io. by rewrite <- app_assoc.
Qed.

Lemma valid_choice_lookup (options : list string) line i :
  valid_choice (length options) line i → is_Some (options !! Z.to_nat (i - 1)).
Proof. intros [_ Hr]. apply lookup_lt_is_Some_2. lia. Qed.

Lemma choice_body_good options line i o c t d inp out ev :
  valid_choice (length options) line i →
  options !! Z.to_nat (i - 1) = Some o →
  prompt_choice_body options (mkWorld c t d (line :: inp) out ev) =
  Ok (Some o) (mkWorld c t d inp (out ++ ["Enter number: "]) ev).
Proof.
  intros [Hi Hr] Ho.
  unfold prompt_choice_body. rewrite bind_run. cbn. rewrite Hi.
  replace ((1 <=? i) && (i <=? Z.of_nat (length options))) with true
    by (symmetry; apply andb_true_iff; split; apply Z.leb_le; lia).
  io. by rewrite Ho.
Qed.

Lemma choice_body_eof options c t d out ev :
  prompt_choice_body options (mkWorld c t d [] out ev) =
  Raise EOFError (mkWorld c t d [] (out ++ ["Enter number: "]) ev).
Proof. reflexivity. Qed.

Lemma loop_choice_bad options bad : ∀ n c t d inp out ev,
  Forall (invalid_choice (length options)) bad →
  loop (length bad + n) (prompt_choice_body options) (mkWorld c t d (bad ++ inp) out ev) =
  loop n (prompt_choice_body options) (mkWorld c t d inp (out ++ retries options bad) ev).
Proof.
  induction bad as [|b bad IH]; intros n c t d inp out ev Hbad.
  - cbn. by rewrite app_nil_r.
  - inversion Hbad as [|? ? Hb Hrest]; subst.
    cbn [length Nat.add app loop]. rewrite bind_run.
    rewrite (choice_body_bad _ _ _ _ _ _ _ _ Hb).
    rewrite IH by assumption. cbn. by rewrite <- app_assoc.
Qed.

(** The run of [prompt_choice] on rejected responses followed by an accepted
    one. *)
Lemma prompt_choice_selects question options bad good rest i c t d out ev :
  Forall (invalid_choice (length options)) bad →
  valid_choice (length options) good i →
  ∃ o, options !! Z.to_nat (i - 1) = Some o ∧
    prompt_choice question options (mkWorld c t d (bad ++ good :: rest) out ev) =
    Ok o (mkWorld c t d rest
            (out ++ menu question options ++ retries options bad ++ ["Enter number: "]) ev).
Proof.
  intros Hbad Hgood.
  destruct (valid_choice_lookup options good i Hgood) as [o Ho].
  exists o. split; [exact Ho|].
  unfold prompt_choice. rewrite bind_run. unfold print at 1, emit. cbn.
  rewrite bind_run, print_options_run. unfold while_True. cbn [stdin].
  rewrite length_app. cbn [length].
  replace (S (length bad + S (length rest))) with (length bad + S (S (length rest)))%nat by lia.
  rewrite loop_choice_bad by assumption.
  cbn [loop]. rewrite bind_run, (choice_body_good _ _ _ _ _ _ _ _ _ _ Hgood Ho). io.
  unfold menu. by rewrite <- !app_assoc.
Qed.

(** The run of [prompt_choice] when every remaining response is rejected. *)
Lemma prompt_choice_eof question options bad c t d out ev :
  Forall (invalid_choice (length options)) bad →
  prompt_choice question options (mkWorld c t d bad out ev) =
  Raise EOFError (mkWorld c t d []
    (out ++ menu question options ++ retries options bad ++ ["Enter number: "]) ev).
Proof.
  intros Hbad.
  unfold prompt_choice. rewrite bind_run. unfold print at 1, emit. cbn.
  rewrite bind_run, print_options_run. unfold while_True. cbn [stdin].
  rewrite <- (app_nil_r bad) at 2.
  replace (S (length bad)) with (length bad + 1)%nat by lia.
  rewrite loop_choice_bad by assumption.
  cbn [loop]. rewrite bind_run, choice_body_eof.
  unfold menu. by rewrite <- !app_assoc.
Qed.

Lemma choice_dec n line : invalid_choice n line ∨ ∃ i, valid_choice n line i.
Proof.
  unfold invalid_choice, valid_choice.
  destruct (py_int (strip line)) as [i|]; [|left; discriminate].
  destruct (decide (1 ≤ i ≤ Z.of_nat n)) as [H|H].
  - right. eauto.
  - left. intros j [= <-]. exact H.
Qed.

(** Every input is either rejected throughout or has a first accepted line. *)
Lemma first_valid_choice n (l : list string) :
  Forall (invalid_choice n) l ∨
  ∃ bad good rest i, l = bad ++ good :: rest ∧
    Forall (invalid_choice n) bad ∧ valid_choice n good i.
Proof.
  induction l as [|x l IH]; [left; constructor|].
  destruct (choice_dec n x) as [Hx | [i Hi]].
  - destruct IH as [IH | (bad & good & rest & i & -> & Hb & Hg)].
    + left. by constructor.
    + right. exists (x :: bad), good, rest, i.
      split; [done|]. split; [by constructor | done].
  - right. exists [], x, l, i. split; [done|]. split; [constructor | done].
Qed.






(** ** Input Collector: name, description and the whole dialogue *)

Lemma prompt_run_plain question l c t d inp out ev :
  prompt question "" (mkWorld c t d (l :: inp) out ev) =
  Ok (strip l) (mkWorld c t d inp (out ++ [question +:+ ": "]) ev).
Proof. reflexivity. Qed.

Lemma prompt_eof_plain question c t d out ev :
  prompt question "" (mkWorld c t d [] out ev) =
  Raise EOFError (mkWorld c t d [] (out ++ [question +:+ ": "]) ev).
Proof. reflexivity. Qed.

Lemma prompt_run_default question default l c t d inp out ev :
  default ≠ "" →
  prompt question default (mkWorld c t d (l :: inp) out ev) =
  Ok (if String.eqb (strip l) "" then default else strip l)
     (mkWorld c t d inp (out ++ [question +:+ " [" +:+ default +:+ "]: "]) ev).
Proof.
  intros Hd. unfold prompt. rewrite (eqb_empty_false _ Hd). io.
  by destruct (String.eqb (strip l) "").
Qed.

Lemma prompt_eof_default question default c t d out ev :
  default ≠ "" →
  prompt question default (mkWorld c t d [] out ev) =
  Raise EOFError (mkWorld c t d [] (out ++ [question +:+ " [" +:+ default +:+ "]: "]) ev).
Proof. intros Hd. unfold prompt. rewrite (eqb_empty_false _ Hd). reflexivity. Qed.

Lemma name_body_blank l c t d inp out ev :
  strip l = "" →
  name_loop_body (mkWorld c t d (l :: inp) out ev) =
  Ok None (mkWorld c t d inp (out ++ name_retries [l]) ev).
Proof.
  intros Hl. unfold name_loop_body. io. rewrite Hl. cbn. by rewrite <- app_assoc.
Qed.

Lemma name_body_given l c t d inp out ev :
  strip l ≠ "" →
  name_loop_body (mkWorld c t d (l :: inp) out ev) =
  Ok (Some (strip l)) (mkWorld c t d inp (out ++ name_retries [l]) ev).
Proof.
  intros Hl. unfold name_loop_body. io. rewrite (eqb_empty_false _ Hl). cbn.
  by rewrite <- app_assoc.
Qed.

Lemma name_retries_app l1 l2 :
  name_retries (l1 ++ l2) = name_retries l1 ++ name_retries l2.
Proof. apply flat_map_app. Qed.

Lemma name_retries_snoc l x y : name_retries (l ++ [x]) = name_retries (y :: l).
Proof.
  induction l as [|a l IH]; [reflexivity|].
  change (name_retries ((a :: l) ++ [x])) with (name_retries [a] ++ name_retries (l ++ [x])).
  rewrite IH. reflexivity.
Qed.

Lemma loop_name_blank blanks : ∀ n c t d inp out ev,
  Forall (λ l, strip l = "") blanks →
  loop (length blanks + n) name_loop_body (mkWorld c t d (blanks ++ inp) out ev) =
  loop n name_loop_body (mkWorld c t d inp (out ++ name_retries blanks) ev).
Proof.
  induction blanks as [|b blanks IH]; intros n c t d inp out ev Hb.
  - cbn. by rewrite app_nil_r.
  - inversion Hb as [|? ? Hb1 Hb2]; subst.
    cbn [length Nat.add app loop]. rewrite bind_run, name_body_blank by assumption.
    rewrite IH by assumption. cbn. by rewrite <- app_assoc.
Qed.

Lemma first_nonblank (l : list string) :
  Forall (λ x, strip x = "") l ∨
  ∃ blanks nm rest, l = blanks ++ nm :: rest ∧
    Forall (λ x, strip x = "") blanks ∧ strip nm ≠ "".
Proof.
  induction l as [|x l IH]; [left; constructor|].
  destruct (decide (strip x = "")) as [Hx|Hx].
  - destruct IH as [IH | (blanks & nm & rest & -> & Hb & Hn)].
    + left. by constructor.
    + right. exists (x :: blanks), nm, rest.
      split; [done|]. split; [by constructor | done].
  - right. exists [], x, l. split; [done|]. split; [constructor | done].
Qed.

(** The part of [gather_inputs] that reads the project name. *)
Lemma read_name_run {B} (k : string → M B) blanks nm c t d inp out ev :
  Forall (λ l, strip l = "") blanks → strip nm ≠ "" →
  (name ← prompt "Project name (e.g., seismic-analysis)" "";
   name ← (if negb (String.eqb name "") then mret name else while_True name_loop_body);
   k name) (mkWorld c t d (blanks ++ nm :: inp) out ev) =
  k (strip nm) (mkWorld c t d inp (out ++ name_dialogue blanks) ev).
Proof.
  intros Hb Hn. destruct blanks as [|b blanks].
  - cbn [app]. rewrite bind_run, prompt_run_plain.
    rewrite (eqb_empty_false _ Hn). rewrite bind_run. io.
    reflexivity.
  - inversion Hb as [|? ? Hb1 Hb2]; subst.
    cbn [app]. rewrite bind_run, prompt_run_plain. rewrite Hb1.
    rewrite bind_run. cbn [String.eqb negb]. unfold while_True. cbn [stdin].
    rewrite length_app. cbn [length].
    replace (S (length blanks + S (length inp)))
      with (length blanks + S (S (length inp)))%nat by lia.
    rewrite loop_name_blank by assumption.
    cbn [loop]. rewrite bind_run, name_body_given by assumption. io.
    unfold name_dialogue. rewrite <- ?app_assoc.
    rewrite <- (name_retries_snoc blanks nm b), name_retries_app. reflexivity.
Qed.



Lemma DEFAULT_DESCRIPTION_nonempty : DEFAULT_DESCRIPTION ≠ "".
Proof. discriminate. Qed.

(** The complete dialogue of [gather_inputs]: blank name responses, a name, a
    description line, and for each menu some rejected responses followed by
    an accepted one. *)
Lemma gather_inputs_run blanks nm dline bad1 g1 i1 bad2 g2 i2 rest c t d out ev :
  Forall (λ l, strip l = "") blanks → strip nm ≠ "" →
  Forall (invalid_choice (length PROJECT_TYPES)) bad1 →
  valid_choice (length PROJECT_TYPES) g1 i1 →
  Forall (invalid_choice (length AI_TOOLS)) bad2 →
  valid_choice (length AI_TOOLS) g2 i2 →
  ∃ o1 o2, PROJECT_TYPES !! Z.to_nat (i1 - 1) = Some o1 ∧
    AI_TOOLS !! Z.to_nat (i2 - 1) = Some o2 ∧
    gather_inputs
      (mkWorld c t d (blanks ++ nm :: dline :: bad1 ++ g1 :: bad2 ++ g2 :: rest) out ev) =
    Ok (mkInputs (strip nm)
          (if String.eqb (strip dline) "" then DEFAULT_DESCRIPTION else strip dline) o1 o2)
       (mkWorld c t d rest (out ++ gather_dialogue blanks bad1 bad2) ev).
Proof.
  intros Hb Hn Hb1 Hg1 Hb2 Hg2.
  destruct (valid_choice_lookup _ _ _ Hg1) as [o1 Ho1].
  destruct (valid_choice_lookup _ _ _ Hg2) as [o2 Ho2].
  exists o1, o2. split; [exact Ho1|]. split; [exact Ho2|].
  unfold gather_inputs. rewrite bind_run. unfold print at 1, emit. cbn -[prompt prompt_choice].
  rewrite read_name_run by assumption.
  rewrite bind_run, prompt_run_default by apply DEFAULT_DESCRIPTION_nonempty.
  rewrite bind_run.
  match goal with
  | |- context [prompt_choice ?q ?o (mkWorld _ _ _ _ ?out' _)] =>
      destruct (prompt_choice_selects q o bad1 g1 (bad2 ++ g2 :: rest) i1 c t d out' ev Hb1 Hg1)
        as (o1' & Ho1' & ->)
  end.
  rewrite bind_run.
  match goal with
  | |- context [prompt_choice ?q ?o (mkWorld _ _ _ _ ?out' _)] =>
      destruct (prompt_choice_selects q o bad2 g2 rest i2 c t d out' ev Hb2 Hg2)
        as (o2' & Ho2' & ->)
  end.
  rewrite Ho1 in Ho1'. rewrite Ho2 in Ho2'.
  injection Ho1' as <-. injection Ho2' as <-.
  unfold gather_dialogue. rewrite <- ?app_assoc. reflexivity.
Qed.







(** ** The file tree: path resolution *)

Lemma resolve_app t : ∀ a cur n b,
  resolve t cur n (a ++ b) =
  match resolve t cur n a with
  | inr n' => resolve t (cur ++ a) n' b
  | inl e => inl e
  end.
Proof.
  induction a as [|c a IH]; intros cur n b; cbn [app resolve].
  - by rewrite app_nil_r.
  - destruct n; [|reflexivity].
    destruct (t !! (cur ++ [c])); [|reflexivity].
    rewrite IH. by rewrite <- app_assoc.
Qed.

Lemma resolve_enoent_split t : ∀ comps cur n,
  resolve t cur n comps = inl ENOENT →
  ∃ e c m, comps = e ++ c :: m ∧ resolve t cur n e = inr Dir ∧
    t !! (cur ++ e ++ [c]) = None.
Proof.
  induction comps as [|c comps IH]; intros cur n H; cbn [resolve] in H.
  - discriminate.
  - destruct n; [|discriminate].
    destruct (t !! (cur ++ [c])) as [n'|] eqn:Hc.
    + destruct (IH _ _ H) as (e & c' & m & -> & He & Hm).
      exists (c :: e), c', m. split; [reflexivity|]. split.
      * cbn [resolve]. by rewrite Hc.
      * rewrite <- Hm. f_equal. by rewrite <- app_assoc.
    + exists [], c, comps. split; [reflexivity|]. split; [reflexivity|]. exact Hc.
Qed.

Lemma wf_fresh_below t k :
  wf_tree t → k ≠ [] → t !! k = None → ∀ s, t !! (k ++ s) = None.
Proof.
  intros Hwf Hk Hnone s. induction s as [|x s IH] using rev_ind.
  - by rewrite app_nil_r.
  - destruct (t !! (k ++ s ++ [x])) as [n|] eqn:Hx; [|reflexivity].
    rewrite app_assoc in Hx. apply Hwf in Hx as [Hx|Hx].
    + destruct k; [done | discriminate Hx].
    + rewrite IH in Hx. discriminate.
Qed.

Lemma resolve_insert_long t K v : ∀ comps cur n,
  (length cur + length comps < length K)%nat →
  resolve (<[K := v]> t) cur n comps = resolve t cur n comps.
Proof.
  induction comps as [|c comps IH]; intros cur n Hlen; cbn [resolve]; [reflexivity|].
  destruct n; [|reflexivity].
  rewrite lookup_insert_ne.
  2: { intros ->. rewrite length_app in Hlen. cbn in Hlen. lia. }
  destruct (t !! (cur ++ [c])); [|reflexivity].
  apply IH. rewrite length_app. cbn in *. lia.
Qed.

(** ** The file tree: chains of fresh directories *)

Lemma mkchain_snoc : ∀ a t cur x,
  mkchain t cur (a ++ [x]) = <[cur ++ a ++ [x] := Dir]> (mkchain t cur a).
Proof.
  induction a as [|c a IH]; intros t cur x; cbn [app mkchain]; [reflexivity|].
  rewrite IH. by rewrite <- app_assoc.
Qed.

Lemma chain_keys_snoc : ∀ a cur x,
  chain_keys cur (a ++ [x]) = chain_keys cur a ++ [cur ++ a ++ [x]].
Proof.
  induction a as [|c a IH]; intros cur x; cbn [app chain_keys]; [reflexivity|].
  rewrite IH. by rewrite <- app_assoc.
Qed.

Lemma mkchain_app : ∀ a t cur b,
  mkchain t cur (a ++ b) = mkchain (mkchain t cur a) (cur ++ a) b.
Proof.
  induction a as [|c a IH]; intros t cur b; cbn [app mkchain].
  - by rewrite app_nil_r.
  - rewrite IH. by rewrite <- app_assoc.
Qed.

Lemma chain_keys_app : ∀ a cur b,
  chain_keys cur (a ++ b) = chain_keys cur a ++ chain_keys (cur ++ a) b.
Proof.
  induction a as [|c a IH]; intros cur b; cbn [app chain_keys].
  - by rewrite app_nil_r.
  - rewrite IH. by rewrite <- app_assoc.
Qed.

(** Keys no longer than [cur] are not touched. *)
Lemma lookup_mkchain_short : ∀ comps t cur (K : list string),
  (length K ≤ length cur)%nat → mkchain t cur comps !! K = t !! K.
Proof.
  induction comps as [|c comps IH]; intros t cur K Hlen; cbn [mkchain]; [reflexivity|].
  rewrite IH by (rewrite length_app; cbn; lia).
  apply lookup_insert_ne. intros <-. rewrite length_app in Hlen. cbn in Hlen. lia.
Qed.

(** Keys longer than the chain are not touched. *)
Lemma lookup_mkchain_long : ∀ comps t cur (K : list string),
  (length cur + length comps < length K)%nat → mkchain t cur comps !! K = t !! K.
Proof.
  induction comps as [|c comps IH]; intros t cur K Hlen; cbn [mkchain]; [reflexivity|].
  rewrite IH by (rewrite length_app; cbn in *; lia).
  apply lookup_insert_ne. intros <-. rewrite length_app in Hlen. cbn in Hlen. lia.
Qed.

Lemma resolve_mkchain_short t cur comps : ∀ ks c0 n,
  (length c0 + length ks ≤ length cur)%nat →
  resolve (mkchain t cur comps) c0 n ks = resolve t c0 n ks.
Proof.
  induction ks as [|k ks IH]; intros c0 n Hlen; cbn [resolve]; [reflexivity|].
  destruct n; [|reflexivity].
  rewrite lookup_mkchain_short by (rewrite length_app; cbn in *; lia).
  destruct (t !! (c0 ++ [k])); [|reflexivity].
  apply IH. rewrite length_app. cbn in *. lia.
Qed.

Lemma resolve_mkchain : ∀ comps t cur,
  resolve (mkchain t cur comps) cur Dir comps = inr Dir.
Proof.
  induction comps as [|c comps IH]; intros t cur; cbn [mkchain resolve]; [reflexivity|].
  rewrite lookup_mkchain_short by lia.
  rewrite lookup_insert_eq. apply IH.
Qed.

Lemma stat_mkchain t cur comps :
  stat t cur = inr Dir → stat (mkchain t cur comps) (cur ++ comps) = inr Dir.
Proof.
  intros Hcur. unfold stat in *. rewrite resolve_app.
  rewrite resolve_mkchain_short by (cbn; lia).
  rewrite Hcur. apply resolve_mkchain.
Qed.

(** ** Resolution in a list of entries *)

Lemma rresolve_app l : ∀ a cur n b,
  rresolve l cur n (a ++ b) =
  match rresolve l cur n a with
  | inr n' => rresolve l (cur ++ a) n' b
  | inl e => inl e
  end.
Proof.
  induction a as [|c a IH]; intros cur n b; cbn [app rresolve].
  - by rewrite app_nil_r.
  - destruct n; [|reflexivity].
    destruct (assoc (cur ++ [c]) l); [|reflexivity].
    rewrite IH. by rewrite <- app_assoc.
Qed.

Lemma rresolve_missing l s c :
  rresolve l [] Dir s = inr Dir → assoc (s ++ [c]) l = None →
  rresolve l [] Dir (s ++ [c]) = inl ENOENT.
Proof.
  intros Hs Hc. rewrite rresolve_app, Hs. cbn [rresolve app]. by rewrite Hc.
Qed.

(** ** The file tree: entries grafted below a directory *)

Section Graft.
Variable R : list string.
Variable base : gmap (list string) node.
Hypothesis R_is_dir : stat base R = inr Dir.
Hypothesis R_is_empty : ∀ s, s ≠ [] → base !! (R ++ s) = None.

Lemma graft_lookup l s : s ≠ [] → graft R l base !! (R ++ s) = assoc s l.
Proof.
  intros Hs. induction l as [|[k n] l IH]; cbn [graft foldr assoc fst snd].
  - by apply R_is_empty.
  - destruct (decide (k = s)) as [->|Hne].
    + apply lookup_insert_eq.
    + rewrite lookup_insert_ne; [exact IH|].
      intros Heq. apply app_inv_head in Heq. contradiction.
Qed.

Lemma graft_lookup_off l (K : list string) :
  (∀ s, K ≠ R ++ s) → graft R l base !! K = base !! K.
Proof.
  intros Hoff. induction l as [|[k n] l IH]; cbn [graft foldr fst snd]; [reflexivity|].
  rewrite lookup_insert_ne; [exact IH|]. intros <-. by apply (Hoff k).
Qed.

Lemma resolve_graft_short l : ∀ ks c0 n,
  proper l = true → (length c0 + length ks ≤ length R)%nat →
  resolve (graft R l base) c0 n ks = resolve base c0 n ks.
Proof.
  induction l as [|[k v] l IH]; intros ks c0 n Hp Hlen; [reflexivity|].
  cbn [proper forallb fst] in Hp. apply andb_true_iff in Hp as [Hk Hp].
  cbn [graft foldr fst snd]. rewrite resolve_insert_long.
  - by apply IH.
  - rewrite length_app. destruct k; [discriminate|]. cbn. lia.
Qed.

Lemma resolve_graft l : ∀ comps cur n,
  resolve (graft R l base) (R ++ cur) n comps = rresolve l cur n comps.
Proof.
  induction comps as [|c comps IH]; intros cur n; cbn [resolve rresolve]; [reflexivity|].
  destruct n; [|reflexivity].
  rewrite <- app_assoc, graft_lookup by (by destruct cur).
  destruct (assoc (cur ++ [c]) l); [|reflexivity].
  rewrite app_assoc. by rewrite <- IH, <- app_assoc.
Qed.

Lemma stat_graft l s :
  proper l = true → stat (graft R l base) (R ++ s) = rresolve l [] Dir s.
Proof.
  intros Hp. unfold stat. rewrite resolve_app.
  rewrite resolve_graft_short by (cbn; done || lia).
  unfold stat in R_is_dir. rewrite R_is_dir.
  rewrite <- (app_nil_r R) at 2. apply resolve_graft.
Qed.

(** *** System calls on fresh entries below [R] *)

Variables (C : list string) (d : date) (inp out : list string).

Lemma os_mkdir_fresh p l s c ev :
  path_key (mkWorld C (graft R l base) d inp out ev) p = R ++ s ++ [c] →
  proper l = true → rresolve l [] Dir s = inr Dir → assoc (s ++ [c]) l = None →
  os_mkdir p (mkWorld C (graft R l base) d inp out ev) =
  Ok () (mkWorld C (graft R ((s ++ [c], Dir) :: l) base) d inp out
           (ev ++ [EvMkdir (R ++ s ++ [c])])).
Proof.
  intros Hk Hp Hs Hc. unfold os_mkdir. cbv zeta. rewrite Hk. cbn [fs].
  destruct (R ++ s ++ [c]) as [|x y] eqn:E; [by destruct R, s|].
  rewrite <- E. rewrite app_assoc, removelast_last, <- app_assoc.
  rewrite stat_graft, Hs by assumption.
  rewrite graft_lookup, Hc by (by destruct s).
  reflexivity.
Qed.

Lemma mkdir_parents_fresh (a : bool) P x l s c ev :
  path_key (mkWorld C (graft R l base) d inp out ev) (mkPath a (P ++ [x])) = R ++ s ++ [c] →
  proper l = true → rresolve l [] Dir s = inr Dir → assoc (s ++ [c]) l = None →
  mkdir (mkPath a (P ++ [x])) true true (mkWorld C (graft R l base) d inp out ev) =
  Ok () (mkWorld C (graft R ((s ++ [c], Dir) :: l) base) d inp out
           (ev ++ [EvMkdir (R ++ s ++ [c])])).
Proof.
  intros Hk Hp Hs Hc. unfold mkdir. cbn [absolute parts].
  rewrite rev_app_distr. cbn [rev app mkdir_parents].
  rewrite rev_involutive. unfold try_except.
  by rewrite (os_mkdir_fresh _ l s c ev Hk Hp Hs Hc).
Qed.

Lemma mkdir_here_fresh p l s c ev :
  path_key (mkWorld C (graft R l base) d inp out ev) p = R ++ s ++ [c] →
  proper l = true → rresolve l [] Dir s = inr Dir → assoc (s ++ [c]) l = None →
  mkdir p false true (mkWorld C (graft R l base) d inp out ev) =
  Ok () (mkWorld C (graft R ((s ++ [c], Dir) :: l) base) d inp out
           (ev ++ [EvMkdir (R ++ s ++ [c])])).
Proof.
  intros Hk Hp Hs Hc. unfold mkdir, mkdir_here, try_except.
  by rewrite (os_mkdir_fresh _ l s c ev Hk Hp Hs Hc).
Qed.

Lemma write_text_fresh p data l s c ev :
  path_key (mkWorld C (graft R l base) d inp out ev) p = R ++ s ++ [c] →
  proper l = true → rresolve l [] Dir s = inr Dir → assoc (s ++ [c]) l = None →
  write_text p data (mkWorld C (graft R l base) d inp out ev) =
  Ok () (mkWorld C (graft R ((s ++ [c], File data) :: l) base) d inp out
           (ev ++ [EvWrite (R ++ s ++ [c]) data])).
Proof.
  intros Hk Hp Hs Hc. unfold write_text. cbv zeta. rewrite Hk. cbn [fs].
  destruct (R ++ s ++ [c]) as [|x y] eqn:E; [by destruct R, s|].
  rewrite <- E. rewrite app_assoc, removelast_last, <- app_assoc.
  rewrite stat_graft, Hs by assumption.
  rewrite graft_lookup, Hc by (by destruct s).
  reflexivity.
Qed.

Lemma touch_fresh p l s c ev :
  path_key (mkWorld C (graft R l base) d inp out ev) p = R ++ s ++ [c] →
  proper l = true → rresolve l [] Dir s = inr Dir → assoc (s ++ [c]) l = None →
  touch p (mkWorld C (graft R l base) d inp out ev) =
  Ok () (mkWorld C (graft R ((s ++ [c], File "") :: l) base) d inp out
           (ev ++ [EvCreate (R ++ s ++ [c])])).
Proof.
  intros Hk Hp Hs Hc. unfold touch. rewrite bind_run.
  unfold try_except. rewrite bind_run. unfold os_utime. rewrite Hk. cbn [fs].
  rewrite stat_graft, (rresolve_missing _ _ _ Hs Hc) by assumption. cbn.
  unfold os_open_creat. cbv zeta. rewrite Hk. cbn [fs].
  destruct (R ++ s ++ [c]) as [|x y] eqn:E; [by destruct R, s|].
  rewrite <- E. rewrite app_assoc, removelast_last, <- app_assoc.
  rewrite stat_graft, Hs by assumption.
  rewrite graft_lookup, Hc by (by destruct s).
  reflexivity.
Qed.
End Graft.

(** ** [Path.mkdir(parents=True)] on a path whose tail is missing *)

Lemma path_key_anchor w a P : path_key w (mkPath a P) = anchor a (cwd w) ++ P.
Proof. unfold path_key, anchor. by destruct a. Qed.

Lemma os_mkdir_unfold p w D c :
  path_key w p = D ++ [c] →
  os_mkdir p w =
  match stat (fs w) D with
  | inl e => Raise (OSError e) w
  | inr (File _) => Raise (OSError ENOTDIR) w
  | inr Dir =>
      match fs w !! (D ++ [c]) with
      | Some _ => Raise (OSError EEXIST) w
      | None => Ok () (record_event (EvMkdir (D ++ [c]))
                         (set_fs (<[D ++ [c] := Dir]> (fs w)) w))
      end
  end.
Proof.
  intros Hk. unfold os_mkdir. cbv zeta. rewrite Hk.
  destruct (D ++ [c]) as [|x y] eqn:E; [by destruct D|].
  rewrite <- E. by rewrite removelast_last.
Qed.

Lemma mkdir_parents_snoc a P x exist_ok :
  mkdir_parents a (rev (P ++ [x])) exist_ok =
  try_except (os_mkdir (mkPath a (P ++ [x])))
    (λ e, match e with
          | OSError ENOENT =>
              Some (mkdir_parents a (rev P) true;; mkdir_here (mkPath a (P ++ [x])) exist_ok)
          | OSError _ => Some (mkdir_exists (mkPath a (P ++ [x])) exist_ok e)
          | _ => None
          end).
Proof.
  rewrite rev_app_distr. cbn [rev app mkdir_parents]. by rewrite rev_involutive.
Qed.

(** If [E] is a directory and nothing exists at or below [E/c], making
    [E/c/m] with its parents creates exactly the chain from [E/c] down. *)
Lemma mkdir_parents_chain a e c : ∀ m exist_ok w,
  stat (fs w) (anchor a (cwd w) ++ e) = inr Dir →
  (∀ s, fs w !! (anchor a (cwd w) ++ e ++ c :: s) = None) →
  mkdir_parents a (rev (e ++ c :: m)) exist_ok w =
  Ok () (after_mkdirs (anchor a (cwd w) ++ e) (c :: m) w).
Proof.
  induction m as [|x m IH] using rev_ind; intros exist_ok w Hdir Hfresh.
  - rewrite mkdir_parents_snoc. unfold try_except.
    rewrite (os_mkdir_unfold _ w (anchor a (cwd w) ++ e) c)
      by (rewrite path_key_anchor; by rewrite app_assoc).
    rewrite Hdir. rewrite <- app_assoc. cbn [app]. rewrite Hfresh.
    unfold after_mkdirs, record_event, set_fs. cbn.
    by rewrite <- !app_assoc.
  - replace (e ++ c :: m ++ [x]) with ((e ++ c :: m) ++ [x])
      by (by rewrite <- app_assoc).
    rewrite mkdir_parents_snoc. unfold try_except.
    rewrite (os_mkdir_unfold _ w (anchor a (cwd w) ++ e ++ c :: m) x)
      by (rewrite path_key_anchor; by rewrite <- !app_assoc).
    assert (Hpar : stat (fs w) (anchor a (cwd w) ++ e ++ c :: m) = inl ENOENT).
    { unfold stat in *.
      replace (anchor a (cwd w) ++ e ++ c :: m)
        with ((anchor a (cwd w) ++ e) ++ c :: m) by (by rewrite <- app_assoc).
      rewrite resolve_app, Hdir. cbn [resolve app].
      replace ((anchor a (cwd w) ++ e) ++ [c])
        with (anchor a (cwd w) ++ e ++ [c]) by (by rewrite <- app_assoc).
      by rewrite Hfresh. }
    rewrite Hpar. rewrite bind_run. rewrite IH by assumption.
    unfold mkdir_here, try_except.
    rewrite (os_mkdir_unfold _ _ (anchor a (cwd w) ++ e ++ c :: m) x)
      by (rewrite path_key_anchor; cbn; by rewrite <- !app_assoc).
    cbn [after_mkdirs fs cwd].
    replace (anchor a (cwd w) ++ e ++ c :: m)
      with ((anchor a (cwd w) ++ e) ++ c :: m) by (by rewrite <- app_assoc).
    rewrite stat_mkchain by assumption.
    rewrite lookup_mkchain_long
      by (rewrite ?length_app; cbn [length]; lia).
    replace (((anchor a (cwd w) ++ e) ++ c :: m) ++ [x])
      with (anchor a (cwd w) ++ e ++ c :: (m ++ [x]))
      by (by rewrite <- !app_assoc).
    rewrite Hfresh.
    unfold after_mkdirs, record_event, set_fs. cbn [cwd fs clock stdin stdout events].
    f_equal. f_equal.
    + change (c :: m ++ [x]) with ((c :: m) ++ [x]). rewrite mkchain_snoc.
      by rewrite <- !app_assoc.
    + change (c :: m ++ [x]) with ((c :: m) ++ [x]).
      rewrite chain_keys_snoc, map_app. cbn [map].
      by rewrite <- !app_assoc.
Qed.

(** ** [Path.exists] *)

Lemma exists_missing p w e :
  stat (fs w) (path_key w p) = inl e → (e = ENOENT ∨ e = ENOTDIR) →
  exists_ p w = Ok false w.
Proof.
  intros Hs He. unfold exists_, try_except. rewrite bind_run. unfold os_stat.
  rewrite Hs. by destruct He as [-> | ->].
Qed.

Lemma exists_found p w n :
  stat (fs w) (path_key w p) = inr n → exists_ p w = Ok true w.
Proof.
  intros Hs. unfold exists_, try_except. rewrite bind_run. unfold os_stat.
  by rewrite Hs.
Qed.

(** ** Project Builder: the run on a missing root *)

Lemma joinpath_plain p s :
  Path s = mkPath false [s] → p </> s = mkPath (absolute p) (parts p ++ [s]).
Proof. intros H. unfold joinpath. by rewrite H. Qed.

Lemma stat_missing t E c m :
  stat t E = inr Dir → t !! (E ++ [c]) = None → stat t (E ++ c :: m) = inl ENOENT.
Proof.
  intros Hdir Hc. unfold stat in *. rewrite resolve_app, Hdir.
  cbn [resolve app]. by rewrite Hc.
Qed.

(** A missing path below a directory splits into an existing directory
    prefix and a first component at and below which nothing exists. *)
Lemma missing_split t A P :
  wf_tree t → stat t A = inr Dir → stat t (A ++ P) = inl ENOENT →
  ∃ e c m, P = e ++ c :: m ∧ stat t (A ++ e) = inr Dir ∧
    ∀ s, t !! (A ++ e ++ c :: s) = None.
Proof.
  intros Hwf HA HP. unfold stat in *. rewrite resolve_app, HA in HP.
  cbn [app] in HP. apply resolve_enoent_split in HP as (e & c & m & -> & He & Hc).
  exists e, c, m. split; [reflexivity|]. split.
  - rewrite resolve_app, HA. exact He.
  - intros s.
    replace (A ++ e ++ c :: s) with ((A ++ e ++ [c]) ++ s)
      by (by rewrite <- !app_assoc).
    apply wf_fresh_below; [exact Hwf | by destruct A, e | exact Hc].
Qed.

(** The first [mkdir] of [create_project] makes the root, its missing
    ancestors and the first two directories below it. *)
Lemma mkdir_parents_root a P e c m s1 s2 C t d inp out ev :
  P = e ++ c :: m →
  stat t (anchor a C ++ e) = inr Dir →
  (∀ s, t !! (anchor a C ++ e ++ c :: s) = None) →
  mkdir (mkPath a ((P ++ [s1]) ++ [s2])) true true (mkWorld C t d inp out ev) =
  Ok () (mkWorld C
           (graft (anchor a C ++ P) [([s1; s2], Dir); ([s1], Dir)]
              (mkchain t (anchor a C ++ e) (c :: m)))
           d inp out
           ((ev ++ map EvMkdir (chain_keys (anchor a C ++ e) (c :: m))) ++
            [EvMkdir ((anchor a C ++ P) ++ [s1]);
             EvMkdir ((anchor a C ++ P) ++ [s1; s2])])).
Proof.
  intros -> Hdir Hfresh. unfold mkdir. cbn [absolute parts].
  replace (((e ++ c :: m) ++ [s1]) ++ [s2]) with (e ++ c :: (m ++ [s1; s2]))
    by (by rewrite <- !app_assoc).
  rewrite (mkdir_parents_chain a e c (m ++ [s1; s2]) true
             (mkWorld C t d inp out ev) Hdir Hfresh).
  unfold after_mkdirs. cbn [cwd fs clock stdin stdout events].
  change (c :: m ++ [s1; s2]) with ((c :: m) ++ [s1; s2]).
  rewrite mkchain_app, chain_keys_app, map_app.
  cbn [mkchain chain_keys map graft foldr fst snd].
  by rewrite <- !app_assoc.
Qed.

Lemma root_base_ok a C P e c m t :
  P = e ++ c :: m →
  stat t (anchor a C ++ e) = inr Dir →
  (∀ s, t !! (anchor a C ++ e ++ c :: s) = None) →
  stat (mkchain t (anchor a C ++ e) (c :: m)) (anchor a C ++ P) = inr Dir ∧
  ∀ s, s ≠ [] → mkchain t (anchor a C ++ e) (c :: m) !! ((anchor a C ++ P) ++ s) = None.
Proof.
  intros -> Hdir Hfresh. split.
  - rewrite app_assoc. by apply stat_mkchain.
  - intros s Hs. rewrite lookup_mkchain_long.
    + replace ((anchor a C ++ e ++ c :: m) ++ s) with (anchor a C ++ e ++ c :: (m ++ s))
        by (by rewrite <- !app_assoc).
      apply Hfresh.
    + destruct s; [done|]. rewrite ?length_app. cbn [length]. rewrite ?length_app. cbn [length]. lia.
Qed.

(** Symbolic execution of the system calls of [create_project] below the
    root: each call is rewritten with its lemma, and the side conditions on
    the entries made so far are decided by computation. *)
Ltac key :=
  rewrite path_key_anchor; cbn [cwd]; rewrite <- ?app_assoc; reflexivity.

Ltac rel q P :=
  lazymatch q with
  | P => constr:(@nil string)
  | ?q' ++ [?x] => let r := rel q' P in constr:(r ++ [x])
  end.

Ltac side := first [key | reflexivity | assumption].

Ltac step P Hb1 Hb2 :=
  lazymatch goal with
  | |- context [write_text (mkPath ?a (?q ++ [?c])) ?data (mkWorld ?C (graft _ ?l _) ?d ?inp ?out ?ev)] =>
      let s := rel q P in let s := eval cbn [app] in s in
      rewrite (write_text_fresh _ _ Hb1 Hb2 C d inp out (mkPath a (q ++ [c])) data l s c ev);
      [cbv beta iota | side ..]
  | |- context [mkdir (mkPath ?a (?q ++ [?c])) true true (mkWorld ?C (graft _ ?l _) ?d ?inp ?out ?ev)] =>
      let s := rel q P in let s := eval cbn [app] in s in
      rewrite (mkdir_parents_fresh _ _ Hb1 Hb2 C d inp out a q c l s c ev);
      [cbv beta iota | side ..]
  | |- context [mkdir (mkPath ?a (?q ++ [?c])) false true (mkWorld ?C (graft _ ?l _) ?d ?inp ?out ?ev)] =>
      let s := rel q P in let s := eval cbn [app] in s in
      rewrite (mkdir_here_fresh _ _ Hb1 Hb2 C d inp out (mkPath a (q ++ [c])) l s c ev);
      [cbv beta iota | side ..]
  | |- context [touch (mkPath ?a (?q ++ [?c])) (mkWorld ?C (graft _ ?l _) ?d ?inp ?out ?ev)] =>
      let s := rel q P in let s := eval cbn [app] in s in
      rewrite (touch_fresh _ _ Hb1 Hb2 C d inp out (mkPath a (q ++ [c])) l s c ev);
      [cbv beta iota | side ..]
  end.

Ltac run P Hb1 Hb2 :=
  repeat first
    [ step P Hb1 Hb2
    | progress cbn [mret M_ret get_clock clock for_each]
    | progress cbv beta iota
    | rewrite bind_run
    | rewrite !joinpath_plain by reflexivity; cbn [absolute parts] ].

(** The end of [create_project], from the AI-tool configuration on, over any
    entries [l] that leave its paths free. *)
Section Tail.
Variables (nm tool : string) (a : bool) (P C : list string) (d : date) (inp out : list string).
Variable base : gmap (list string) node.
Hypothesis Hb1 : stat base (anchor a C ++ P) = inr Dir.
Hypothesis Hb2 : ∀ s, s ≠ [] → base !! ((anchor a C ++ P) ++ s) = None.

Lemma create_project_tail l ev :
  proper l = true →
  rresolve l [] Dir ["src"] = inr Dir → rresolve l [] Dir ["tests"] = inr Dir →
  assoc [".claude"] l = None → assoc [".claude"; "CLAUDE.md"] l = None →
  assoc [".cursorrules"] l = None →
  assoc [".github"] l = None → assoc [".github"; "copilot-instructions.md"] l = None →
  assoc ["src"; ".gitkeep"] l = None → assoc ["tests"; ".gitkeep"] l = None →
  ((if String.eqb tool "Claude Code" then
      mkdir (mkPath a (P ++ [".claude"])) false true;;
      write_text (mkPath a ((P ++ [".claude"]) ++ ["CLAUDE.md"])) (claude_md_template nm)
    else if String.eqb tool "Cursor" then
      write_text (mkPath a (P ++ [".cursorrules"])) (cursorrules_template nm)
    else if String.eqb tool "GitHub Copilot" then
      mkdir (mkPath a (P ++ [".github"])) false true;;
      write_text (mkPath a ((P ++ [".github"]) ++ ["copilot-instructions.md"]))
        (copilot_instructions_template nm)
    else mret ());;
   for_each [mkPath a (P ++ ["src"]); mkPath a (P ++ ["tests"])]
     (λ d, touch (d </> ".gitkeep"));;
   mret (mkPath a P))
    (mkWorld C (graft (anchor a C ++ P) l base) d inp out ev) =
  Ok (mkPath a P)
    (mkWorld C
       (graft (anchor a C ++ P)
          (entries (plan_ai (mkInputs nm "" "" tool) ++
                    [EvCreate ["src"; ".gitkeep"]; EvCreate ["tests"; ".gitkeep"]]) ++ l)
          base)
       d inp out
       (ev ++ map (shift (anchor a C ++ P))
                (plan_ai (mkInputs nm "" "" tool) ++
                 [EvCreate ["src"; ".gitkeep"]; EvCreate ["tests"; ".gitkeep"]]))).
Proof.
  intros Hp Hsrc Htests Hclaude Hclaude' Hcursor Hgithub Hgithub' Hk1 Hk2.
  unfold plan_ai. cbn [name ai_tool].
  destruct (String.eqb tool "Claude Code");
    [|destruct (String.eqb tool "Cursor");
      [|destruct (String.eqb tool "GitHub Copilot")]].
  all: run P Hb1 Hb2.
  all: set (R := anchor a C ++ P) in *.
  all: cbn [entries flat_map entry_of app rev map shift].
  all: rewrite <- ?app_assoc.
  all: reflexivity.
Qed.
End Tail.

Lemma entries_app l1 l2 : entries (l1 ++ l2) = entries l2 ++ entries l1.
Proof. unfold entries. by rewrite flat_map_app, rev_app_distr. Qed.

(** The run of [create_project] when the root is missing below an existing
    directory: it returns the root, and the world changes as the plan says. *)
Lemma create_project_run nm desc pt tool C t d inp out ev e c m :
  parts (Path nm) = e ++ c :: m →
  stat t (anchor (absolute (Path nm)) C ++ e) = inr Dir →
  (∀ s, t !! (anchor (absolute (Path nm)) C ++ e ++ c :: s) = None) →
  create_project (mkInputs nm desc pt tool) (mkWorld C t d inp out ev) =
  Ok (Path nm)
    (mkWorld C
       (graft (root_key C nm) (entries (plan d (mkInputs nm desc pt tool)))
          (mkchain t (anchor (absolute (Path nm)) C ++ e) (c :: m)))
       d inp out
       (ev ++ map EvMkdir (chain_keys (anchor (absolute (Path nm)) C ++ e) (c :: m)) ++
        map (shift (root_key C nm)) (plan d (mkInputs nm desc pt tool)))).
Proof.
  intros HP Hdir Hfresh.
  destruct (root_base_ok _ C _ e c m t HP Hdir Hfresh) as [Hb1 Hb2].
  assert (Hmiss : stat t (root_key C nm) = inl ENOENT).
  { unfold root_key. rewrite HP, app_assoc. apply stat_missing; [exact Hdir|].
    rewrite <- app_assoc. apply Hfresh. }
  unfold plan.
  rewrite (entries_app (plan_dirs _)), (entries_app (plan_files _ _)).
  rewrite (map_app _ (plan_dirs _)), (map_app _ (plan_files _ _)).
  change (plan_ai (mkInputs nm desc pt tool)) with (plan_ai (mkInputs nm "" "" tool)).
  unfold create_project, plan_dirs, plan_files, root_key in *.
  cbv zeta. cbn [name description project_type ai_tool].
  rewrite !joinpath_plain by reflexivity.
  cbn [absolute parts].
  destruct (Path nm) as [a P] eqn:HPath. cbn [absolute parts] in *.
  pose proof (create_project_tail nm tool a P C d inp out _ Hb1 Hb2) as Htail.
  set (X := map (shift _) (plan_ai (mkInputs nm "" "" tool) ++ _)) in *.
  set (Y := entries (plan_ai (mkInputs nm "" "" tool) ++ _)) in *.
  match goal with
  | |- context [mbind ?f (write_text ?p (contributing_template nm))] =>
      remember f as k eqn:Hk
  end.
  rewrite bind_run.
  rewrite (exists_missing _ _ ENOENT)
    by (first [rewrite path_key_anchor; exact Hmiss | by left]).
  cbv beta iota. rewrite bind_run. cbn [mret M_ret]. cbv beta iota.
  destruct (String.eqb pt "Algorithm implementation") eqn:Halgo;
  destruct (String.eqb pt "Data pipeline") eqn:Hdata.
  all: cbn [for_each app]; rewrite bind_run; rewrite bind_run;
    rewrite (mkdir_parents_root a P e c m _ _ C t d inp out ev HP Hdir Hfresh);
    cbv beta iota.
  all: run P Hb1 Hb2.
  all: rewrite Hk; cbv beta; rewrite Htail by reflexivity.
  all: set (R := anchor a C ++ P) in *.
  all: f_equal; f_equal; rewrite <- ?app_assoc; reflexivity.
Qed.

(** ** Template Catalog: what the templates contain *)

Lemma occursb_occurs s t : occursb s t = true → occurs_in s t.
Proof. apply occursb_spec. Qed.

(** C6. The output of [overview_template] and of [readme_template] contains
    the project name and the description verbatim, whatever they are. *)
Theorem templates_contain_name_and_description (today : date) (name description : string) :
  occurs_in name (overview_template today name description) ∧
  occurs_in description (overview_template today name description) ∧
  occurs_in name (readme_template name description) ∧
  occurs_in description (readme_template name description).
Proof.
  unfold overview_template, readme_template. repeat split.
  - apply occurs_in_mid.
  - do 2 apply occurs_in_app_r. apply occurs_in_mid.
  - apply occurs_in_mid.
  - do 2 apply occurs_in_app_r. apply occurs_in_mid.
Qed.







Lemma overview_change_record d name description :
  ∃ body, overview_template d name description =
    body +:+ "## Change Record

- " +:+ isoformat d +:+ ": Initial draft
".
Proof.
  unfold overview_template, _today.
  match goal with
  | |- context [description +:+ ?L3 +:+ _] =>
      let pre := eval vm_compute in (String.substring 0 (String.length L3 - 20) L3) in
      exists ("# " +:+ name +:+ "

**Status**: Draft

" +:+ description +:+ pre)
  end.
  rewrite !app_assoc_str. reflexivity.
Qed.



Lemma status_line_occurs value data :
  value ≠ "" → occursb "
" value = false → occursb (status_line value) data = true → has_status_line data.
Proof. intros ? ? H. exists value. split; [done|]. split; [done|]. by apply occursb_occurs. Qed.

(** What the plan writes below [specs/] has a change record, and everything
    there but the format guide has a status line. *)
Lemma plan_spec_docs d inputs :
  Forall (λ e, match e with
               | EvWrite ("specs" :: rest) data =>
                   occurs_in "## Change Record" data ∧
                   (rest ≠ ["spec-format.md"] → has_status_line data)
               | _ => True
               end) (plan d inputs).
Proof.
  assert (Hov : occurs_in "## Change Record" (overview_template d (name inputs) (description inputs)) ∧
                has_status_line (overview_template d (name inputs) (description inputs))).
  { split.
    - destruct (overview_change_record d (name inputs) (description inputs)) as [body ->].
      apply occurs_in_app_r, occurs_in_app_l. by apply occursb_occurs.
    - exists "Draft". split; [done|]. split; [done|].
      unfold overview_template. do 2 apply occurs_in_app_r. apply occurs_in_app_l.
      by apply occursb_occurs. }
  unfold plan. rewrite !Forall_app. split; [|split; [|split]].
  - unfold plan_dirs. destruct (String.eqb _ _); repeat constructor.
  - unfold plan_files.
    destruct (String.eqb (project_type inputs) "Algorithm implementation"),
             (String.eqb (project_type inputs) "Data pipeline"); cbn [app].
    all: repeat first
         [ apply List.Forall_nil
         | apply List.Forall_cons;
           [ first
               [ exact I
               | split; [exact (proj1 Hov) | intros _; exact (proj2 Hov)]
               | split; [by apply occursb_occurs | intros H; by destruct H]
               | split; [by apply occursb_occurs
                        | intros _; by apply (status_line_occurs "Draft")]
               | split; [by apply occursb_occurs
                        | intros _; by apply (status_line_occurs "Template")] ] |] ].
  - unfold plan_ai.
    destruct (String.eqb _ _); [|destruct (String.eqb _ _); [|destruct (String.eqb _ _)]];
      repeat constructor.
  - repeat constructor.
Qed.

(** ** Project Builder: logs and trees of a run *)

Lemma creatable_split C t d inp out ev nm :
  creatable (mkWorld C t d inp out ev) nm →
  ∃ e c m, parts (Path nm) = e ++ c :: m ∧
    stat t (anchor (absolute (Path nm)) C ++ e) = inr Dir ∧
    ∀ s, t !! (anchor (absolute (Path nm)) C ++ e ++ c :: s) = None.
Proof.
  intros (Hwf & Hcwd & Hmiss & _). cbn [fs cwd] in *.
  apply missing_split; [exact Hwf | | exact Hmiss].
  unfold anchor. by destruct (absolute (Path nm)).
Qed.

(** The run of [create_project] in a world where the root can be made. *)
Lemma create_project_creates inputs C t d inp out ev :
  creatable (mkWorld C t d inp out ev) (name inputs) →
  ∃ e c m,
    parts (Path (name inputs)) = e ++ c :: m ∧
    stat t (anchor (absolute (Path (name inputs))) C ++ e) = inr Dir ∧
    (∀ s, t !! (anchor (absolute (Path (name inputs))) C ++ e ++ c :: s) = None) ∧
    create_project inputs (mkWorld C t d inp out ev) =
    Ok (Path (name inputs))
      (mkWorld C
         (graft (root_key C (name inputs)) (entries (plan d inputs))
            (mkchain t (anchor (absolute (Path (name inputs))) C ++ e) (c :: m)))
         d inp out
         (ev ++ map EvMkdir (chain_keys (anchor (absolute (Path (name inputs))) C ++ e) (c :: m)) ++
          map (shift (root_key C (name inputs))) (plan d inputs))).
Proof.
  intros Hc. destruct (creatable_split _ _ _ _ _ _ _ Hc) as (e & c & m & HP & Hdir & Hfresh).
  exists e, c, m. split; [exact HP|]. split; [exact Hdir|]. split; [exact Hfresh|].
  destruct inputs as [nm desc pt tool]. by apply create_project_run.
Qed.

Lemma files_written_app l1 l2 :
  files_written (l1 ++ l2) = files_written l1 ++ files_written l2.
Proof. apply flat_map_app. Qed.

Lemma dirs_created_app l1 l2 :
  dirs_created (l1 ++ l2) = dirs_created l1 ++ dirs_created l2.
Proof. apply flat_map_app. Qed.

Lemma files_written_mkdirs ks : files_written (map EvMkdir ks) = [].
Proof. induction ks; [reflexivity | exact IHks]. Qed.

Lemma dirs_created_mkdirs ks : dirs_created (map EvMkdir ks) = ks.
Proof. induction ks as [|k ks IH]; [reflexivity|]. cbn. f_equal. exact IH. Qed.

Lemma files_written_shift R log :
  files_written (map (shift R) log) = map (app R) (files_written log).
Proof.
  induction log as [|e log IH]; [reflexivity|].
  cbn [map]. change (e :: log) with ([e] ++ log).
  change (shift R e :: map (shift R) log) with ([shift R e] ++ map (shift R) log).
  rewrite !files_written_app, map_app, IH. f_equal. by destruct e.
Qed.

Lemma dirs_created_shift R log :
  dirs_created (map (shift R) log) = map (app R) (dirs_created log).
Proof.
  induction log as [|e log IH]; [reflexivity|].
  cbn [map]. change (e :: log) with ([e] ++ log).
  change (shift R e :: map (shift R) log) with ([shift R e] ++ map (shift R) log).
  rewrite !dirs_created_app, map_app, IH. f_equal. by destruct e.
Qed.

Lemma file_keys_app l1 l2 : file_keys (l1 ++ l2) = file_keys l1 ++ file_keys l2.
Proof. apply flat_map_app. Qed.

Lemma file_keys_rev l : file_keys (rev l) = rev (file_keys l).
Proof.
  induction l as [|[k n] l IH]; [reflexivity|].
  cbn [rev]. rewrite file_keys_app, IH.
  change ((k, n) :: l) with ([(k, n)] ++ l). rewrite file_keys_app, rev_app_distr.
  f_equal. by destruct n.
Qed.

Lemma file_keys_entries log : file_keys (entries log) = rev (files_written log).
Proof.
  unfold entries. rewrite file_keys_rev. f_equal.
  induction log as [|e log IH]; [reflexivity|].
  change (e :: log) with ([e] ++ log).
  rewrite flat_map_app, file_keys_app, files_written_app, IH. f_equal. by destruct e.
Qed.

Lemma assoc_elem_of k n l : assoc k l = Some n → (k, n) ∈ l.
Proof.
  induction l as [|[k' n'] l IH]; cbn [assoc fst snd]; [discriminate|].
  destruct (decide (k' = k)) as [->|].
  - intros [= ->]. apply elem_of_cons. by left.
  - intros H. apply elem_of_cons. right. by apply IH.
Qed.

Lemma elem_of_assoc k n l : NoDup (l.*1) → (k, n) ∈ l → assoc k l = Some n.
Proof.
  induction l as [|[k' n'] l IH]; cbn [assoc fst snd fmap list_fmap].
  - intros _ H. by apply elem_of_nil in H.
  - intros Hnd H. apply NoDup_cons in Hnd as [Hk' Hnd].
    apply elem_of_cons in H as [[= <- <-]|H].
    + by rewrite decide_True.
    + rewrite decide_False; [by apply IH|].
      intros ->. apply Hk'. apply list_elem_of_fmap. by exists (k, n).
Qed.

Lemma elem_of_file_keys k l : k ∈ file_keys l ↔ ∃ data, (k, File data) ∈ l.
Proof.
  unfold file_keys. rewrite list_elem_of_In, in_flat_map. split.
  - intros ([k' [|data]] & Hin & Hk); cbn in Hk; [done|].
    destruct Hk as [<-|[]]. exists data. by apply list_elem_of_In.
  - intros [data H]. exists (k, File data). split; [by apply list_elem_of_In|]. by left.
Qed.

Lemma assoc_file_keys k l :
  NoDup (l.*1) → (∃ data, assoc k l = Some (File data)) ↔ k ∈ file_keys l.
Proof.
  intros Hnd. rewrite elem_of_file_keys. split; intros [data H]; exists data.
  - by apply assoc_elem_of.
  - by apply elem_of_assoc.
Qed.

(** The files of the plan, in the order of the program. *)
Lemma files_written_plan d inputs :
  files_written (plan d inputs) =
  [["specs"; "spec-format.md"]; ["specs"; "00-overview.md"];
   ["specs"; "01-requirements"; "functional.md"];
   ["specs"; "99-decisions"; "adr-000-template.md"]] ++
  (if String.eqb (project_type inputs) "Data pipeline" then
     [["specs"; "02-architecture"; "data-flow.md"]]
   else []) ++
  (if String.eqb (project_type inputs) "Algorithm implementation" then
     [["specs"; "04-algorithms"; "algorithm-template.md"];
      ["specs"; "05-validation"; "validation-plan.md"]]
   else []) ++
  [["README.md"]; ["CONTRIBUTING.md"]] ++
  (if String.eqb (ai_tool inputs) "Claude Code" then [[".claude"; "CLAUDE.md"]]
   else if String.eqb (ai_tool inputs) "Cursor" then [[".cursorrules"]]
   else if String.eqb (ai_tool inputs) "GitHub Copilot" then [[".github"; "copilot-instructions.md"]]
   else []) ++
  [["src"; ".gitkeep"]; ["tests"; ".gitkeep"]].
Proof.
  unfold plan.
  rewrite (files_written_app (plan_dirs _)), (files_written_app (plan_files _ _)),
    (files_written_app (plan_ai _)).
  assert (Hd : files_written (plan_dirs (project_type inputs)) = []).
  { unfold plan_dirs.
    by destruct (String.eqb (project_type inputs) "Algorithm implementation"). }
  assert (Hf : files_written (plan_files d inputs) =
    [["specs"; "spec-format.md"]; ["specs"; "00-overview.md"];
     ["specs"; "01-requirements"; "functional.md"];
     ["specs"; "99-decisions"; "adr-000-template.md"]] ++
    (if String.eqb (project_type inputs) "Data pipeline" then
       [["specs"; "02-architecture"; "data-flow.md"]]
     else []) ++
    (if String.eqb (project_type inputs) "Algorithm implementation" then
       [["specs"; "04-algorithms"; "algorithm-template.md"];
        ["specs"; "05-validation"; "validation-plan.md"]]
     else []) ++
    [["README.md"]; ["CONTRIBUTING.md"]]).
  { unfold plan_files.
    by destruct (String.eqb (project_type inputs) "Data pipeline"),
               (String.eqb (project_type inputs) "Algorithm implementation"). }
  assert (Ha : files_written (plan_ai inputs) =
    (if String.eqb (ai_tool inputs) "Claude Code" then [[".claude"; "CLAUDE.md"]]
     else if String.eqb (ai_tool inputs) "Cursor" then [[".cursorrules"]]
     else if String.eqb (ai_tool inputs) "GitHub Copilot" then [[".github"; "copilot-instructions.md"]]
     else [])).
  { unfold plan_ai.
    destruct (String.eqb (ai_tool inputs) "Claude Code"); [reflexivity|].
    destruct (String.eqb (ai_tool inputs) "Cursor"); [reflexivity|].
    by destruct (String.eqb (ai_tool inputs) "GitHub Copilot"). }
  rewrite Hd, Hf, Ha. cbn [app files_written flat_map].
  by rewrite <- !app_assoc.
Qed.

(** The plan writes the documented file set, whatever the strings are. *)
Lemma plan_files_expected d inputs rel :
  rel ∈ files_written (plan d inputs) ↔
  rel ∈ expected_files (project_type inputs) (ai_tool inputs).
Proof.
  rewrite files_written_plan. unfold expected_files, base_files.
  set (data := if String.eqb (project_type inputs) "Data pipeline" then _ else _).
  set (algo := if String.eqb (project_type inputs) "Algorithm implementation" then _ else _).
  set (ai := if String.eqb (ai_tool inputs) "Claude Code" then _ else _).
  rewrite !elem_of_app, !elem_of_cons, !elem_of_nil. tauto.
Qed.

(** The paths of a log, oldest first. *)
Lemma entries_keys log :
  (entries log).*1 =
  rev (map (λ e, match e with
                 | EvMkdir k | EvWrite k _ | EvCreate k | EvUtime k => k
                 end)
         (List.filter (λ e, match e with EvUtime _ => false | _ => true end) log)).
Proof.
  unfold entries. induction log as [|e log IH]; [reflexivity|].
  cbn [flat_map]. rewrite rev_app_distr, fmap_app, IH.
  destruct e; cbn [List.filter map rev entry_of app fmap list_fmap fst];
    by rewrite ?app_nil_r.
Qed.

Lemma plan_keys_nodup d inputs : NoDup ((entries (plan d inputs)).*1).
Proof.
  rewrite entries_keys.
  unfold plan, plan_dirs, plan_files, plan_ai.
  destruct (String.eqb (project_type inputs) "Algorithm implementation"),
           (String.eqb (project_type inputs) "Data pipeline").
  all: destruct (String.eqb (ai_tool inputs) "Claude Code");
    [|destruct (String.eqb (ai_tool inputs) "Cursor");
      [|destruct (String.eqb (ai_tool inputs) "GitHub Copilot")]].
  all: cbn [app List.filter map rev].
  all: apply (bool_decide_unpack _); vm_compute; exact I.
Qed.

Lemma plan_files_nodup d inputs : NoDup (files_written (plan d inputs)).
Proof.
  rewrite files_written_plan.
  destruct (String.eqb (project_type inputs) "Algorithm implementation"),
           (String.eqb (project_type inputs) "Data pipeline").
  all: destruct (String.eqb (ai_tool inputs) "Claude Code");
    [|destruct (String.eqb (ai_tool inputs) "Cursor");
      [|destruct (String.eqb (ai_tool inputs) "GitHub Copilot")]].
  all: apply (bool_decide_unpack _); vm_compute; exact I.
Qed.

Lemma plan_proper d inputs : proper (entries (plan d inputs)) = true.
Proof.
  unfold plan, plan_dirs, plan_files, plan_ai.
  destruct (String.eqb (project_type inputs) "Algorithm implementation"),
           (String.eqb (project_type inputs) "Data pipeline").
  all: destruct (String.eqb (ai_tool inputs) "Claude Code");
    [|destruct (String.eqb (ai_tool inputs) "Cursor");
      [|destruct (String.eqb (ai_tool inputs) "GitHub Copilot")]].
  all: reflexivity.
Qed.

Lemma stat_lookup t k n : stat t k = inr n → k ≠ [] → t !! k = Some n.
Proof.
  intros Hs Hk. destruct (exists_last Hk) as (D & c & ->).
  unfold stat in Hs. rewrite resolve_app in Hs.
  destruct (resolve t [] Dir D) as [?|[|?]]; cbn [resolve app] in Hs; try discriminate.
  destruct (t !! (D ++ [c])); [by injection Hs as -> | discriminate].
Qed.

Lemma graft_lookup_root R l base :
  proper l = true → graft R l base !! R = base !! R.
Proof.
  induction l as [|[k n] l IH]; [reflexivity|].
  cbn [proper forallb fst]. intros [Hk Hp]%andb_true_iff.
  cbn [graft foldr fst snd]. rewrite lookup_insert_ne; [by apply IH|].
  intros Heq. rewrite <- (app_nil_r R) in Heq at 2. apply app_inv_head in Heq.
  by subst k.
Qed.

Lemma elem_of_rev {A} (x : A) l : x ∈ rev l ↔ x ∈ l.
Proof. rewrite !list_elem_of_In. symmetry. apply in_rev. Qed.

Lemma NoDup_map_app (R : list string) (l : list (list string)) :
  NoDup l → NoDup (map (app R) l).
Proof.
  induction 1 as [|x l Hx Hl IH]; cbn [map]; constructor; [|exact IH].
  rewrite list_elem_of_In, in_map_iff. intros (y & Hy & Hin).
  apply app_inv_head in Hy as ->. by apply Hx, list_elem_of_In.
Qed.

Lemma elem_of_map_app (R k : list string) (l : list (list string)) :
  k ∈ map (app R) l ↔ ∃ rel, rel ∈ l ∧ k = R ++ rel.
Proof.
  rewrite list_elem_of_In, in_map_iff. split.
  - intros (rel & <- & Hin). exists rel. by rewrite list_elem_of_In.
  - intros (rel & Hin & ->). exists rel. by rewrite <- list_elem_of_In.
Qed.

Lemma plan_files_nonempty d inputs : [] ∉ files_written (plan d inputs).
Proof.
  rewrite files_written_plan.
  destruct (String.eqb (project_type inputs) "Algorithm implementation"),
           (String.eqb (project_type inputs) "Data pipeline").
  all: destruct (String.eqb (ai_tool inputs) "Claude Code");
    [|destruct (String.eqb (ai_tool inputs) "Cursor");
      [|destruct (String.eqb (ai_tool inputs) "GitHub Copilot")]].
  all: apply (bool_decide_unpack _); vm_compute; exact I.
Qed.

(** The regular files below the root after the run are those the plan
    writes. *)
Lemma project_tree_files R base d inputs rel :
  stat base R = inr Dir → R ≠ [] →
  (∀ s, s ≠ [] → base !! (R ++ s) = None) →
  (∃ data, graft R (entries (plan d inputs)) base !! (R ++ rel) = Some (File data)) ↔
  rel ∈ files_written (plan d inputs).
Proof.
  intros Hdir HR Hfresh. destruct rel as [|x rel].
  - rewrite app_nil_r, graft_lookup_root by apply plan_proper.
    rewrite (stat_lookup _ _ _ Hdir HR). split; [intros [? H]; discriminate H|].
    intros Hin. by apply plan_files_nonempty in Hin.
  - rewrite (graft_lookup R base Hfresh) by done.
    rewrite assoc_file_keys by apply plan_keys_nodup.
    by rewrite file_keys_entries, elem_of_rev.
Qed.

(** C1. For each of the 4 x 4 valid combinations of project type and AI tool,
    in a world where the project root can be made, [create_project] returns
    the root and the files it writes are exactly the documented set below
    the root: the base set, plus the data-flow file for a data pipeline, plus
    the algorithm and validation files for an algorithm implementation, plus
    the single configuration file of the AI tool (none for "Other/None").
    Each file is written once, and these are exactly the regular files below
    the root afterwards. *)
Theorem create_project_file_set (inputs : Inputs) (w : World) :
  project_type inputs ∈ PROJECT_TYPES → ai_tool inputs ∈ AI_TOOLS →
  creatable w (name inputs) →
  ∃ w' log,
    create_project inputs w = Ok (Path (name inputs)) w' ∧
    events w' = events w ++ log ∧
    NoDup (files_written log) ∧
    (∀ k, k ∈ files_written log ↔
       ∃ rel, rel ∈ expected_files (project_type inputs) (ai_tool inputs) ∧
         k = root_key (cwd w) (name inputs) ++ rel) ∧
    (∀ rel, (∃ data, fs w' !! (root_key (cwd w) (name inputs) ++ rel) = Some (File data)) ↔
       rel ∈ expected_files (project_type inputs) (ai_tool inputs)).
Proof.
  intros _ _ Hc. destruct w as [C t d inp out ev].
  destruct (create_project_creates inputs C t d inp out ev Hc)
    as (e & c & m & HP & Hdir & Hfresh & Hrun).
  destruct (root_base_ok _ C _ e c m t HP Hdir Hfresh) as [Hb1 Hb2].
  eexists _, _. split; [exact Hrun|]. cbn [events fs cwd].
  split; [reflexivity|].
  rewrite files_written_app, files_written_mkdirs, files_written_shift. cbn [app].
  split; [apply NoDup_map_app, plan_files_nodup|]. split.
  - intros k. rewrite elem_of_map_app.
    split; intros (rel & Hrel & ->); exists rel; (split; [|reflexivity]);
      by apply (plan_files_expected d inputs).
  - intros rel. rewrite <- (plan_files_expected d inputs).
    apply project_tree_files; [exact Hb1 | | exact Hb2].
    unfold root_key. rewrite HP. by destruct (anchor _ _), e.
Qed.

Lemma wf_tree_empty : wf_tree ∅.
Proof. intros k c n H. by rewrite lookup_empty in H. Qed.

Lemma creatable_empty_world nm :
  stat ∅ (root_key [] nm) = inl ENOENT → ".." ∉ parts (Path nm) →
  creatable empty_world nm.
Proof. intros H1 H2. split; [apply wf_tree_empty|]. split; [reflexivity|]. by split. Qed.

Lemma creatable_seismic : creatable empty_world (name seismic).
Proof.
  apply creatable_empty_world; [vm_compute; reflexivity|].
  apply (bool_decide_unpack _). vm_compute. exact I.
Qed.

Lemma create_project_file_set_witness :
  creatable empty_world (name seismic) ∧
  ∃ w' log,
    create_project seismic empty_world = Ok (Path (name seismic)) w' ∧
    events w' = events empty_world ++ log ∧
    NoDup (files_written log) ∧
    (∀ k, k ∈ files_written log ↔
       ∃ rel, rel ∈ expected_files (project_type seismic) (ai_tool seismic) ∧
         k = root_key (cwd empty_world) (name seismic) ++ rel) ∧
    (∀ rel, (∃ data, fs w' !! (root_key (cwd empty_world) (name seismic) ++ rel) =
                     Some (File data)) ↔
       rel ∈ expected_files (project_type seismic) (ai_tool seismic)).
Proof.
  split; [exact creatable_seismic|].
  apply create_project_file_set.
  - apply (bool_decide_unpack _). vm_compute. exact I.
  - apply (bool_decide_unpack _). vm_compute. exact I.
  - exact creatable_seismic.
Defined.

Lemma path_key_root w nm : path_key w (Path nm) = root_key (cwd w) nm.
Proof. unfold root_key. destruct (Path nm) as [a P]. apply path_key_anchor. Qed.

Lemma create_project_exists inputs w n :
  stat (fs w) (root_key (cwd w) (name inputs)) = inr n →
  create_project inputs w = Raise (SystemExit 1) (emit (exists_message (name inputs)) w).
Proof.
  intros Hs. unfold create_project. cbv zeta. rewrite bind_run.
  rewrite (exists_found _ _ n) by (by rewrite path_key_root).
  reflexivity.
Qed.

(** C2. If the project root already exists when [create_project] is invoked
    (as a directory or as a file), it reports "already exists" on standard
    output and ends the process with status 1, and the file tree and the log
    of mutating system calls are what they were: nothing is written, nothing
    is created. In particular, after a run that made the project, a second
    run with the same name fails this way. *)
Theorem create_project_refuses_existing_root (inputs : Inputs) (w : World) :
  (∀ n, stat (fs w) (root_key (cwd w) (name inputs)) = inr n →
     ∃ w', create_project inputs w = Raise (SystemExit 1) w' ∧
       exit_status (create_project inputs w) = Some 1 ∧
       stdout w' = stdout w ++ [exists_message (name inputs)] ∧
       fs w' = fs w ∧ events w' = events w) ∧
  (creatable w (name inputs) →
     ∃ w1 w2,
       create_project inputs w = Ok (Path (name inputs)) w1 ∧
       create_project inputs w1 = Raise (SystemExit 1) w2 ∧
       exit_status (create_project inputs w1) = Some 1 ∧
       stdout w2 = stdout w1 ++ [exists_message (name inputs)] ∧
       fs w2 = fs w1 ∧ events w2 = events w1).
Proof.
  split.
  - intros n Hs. eexists. rewrite (create_project_exists _ _ _ Hs).
    split; [reflexivity|]. by repeat split.
  - intros Hc. destruct w as [C t d inp out ev].
    destruct (create_project_creates inputs C t d inp out ev Hc)
      as (e & c & m & HP & Hdir & Hfresh & Hrun).
    destruct (root_base_ok _ C _ e c m t HP Hdir Hfresh) as [Hb1 Hb2].
    eexists _, _. split; [exact Hrun|].
    rewrite (create_project_exists inputs _ Dir).
    + split; [reflexivity|]. by repeat split.
    + pose proof (stat_graft _ _ Hb1 Hb2 (entries (plan d inputs)) []
                    (plan_proper _ _)) as Hs.
      rewrite app_nil_r in Hs. exact Hs.
Qed.

Lemma create_project_refuses_existing_root_witness :
  creatable empty_world (name seismic) ∧
  ∃ w1 w2,
    create_project seismic empty_world = Ok (Path (name seismic)) w1 ∧
    create_project seismic w1 = Raise (SystemExit 1) w2 ∧
    exit_status (create_project seismic w1) = Some 1 ∧
    stdout w2 = stdout w1 ++ [exists_message (name seismic)] ∧
    fs w2 = fs w1 ∧ events w2 = events w1.
Proof.
  split; [exact creatable_seismic|].
  exact (proj2 (create_project_refuses_existing_root seismic empty_world) creatable_seismic).
Defined.


Lemma not_claude_app R s : s ≠ [] → not_claude (R ++ s) = not_claude s.
Proof.
  intros Hs. unfold not_claude. rewrite last_app.
  destruct (last s) eqn:E; [reflexivity|].
  apply last_None in E. contradiction.
Qed.

Lemma filter_not_claude_shift R l :
  Forall (λ s, s ≠ []) l →
  length (List.filter not_claude (map (app R) l)) = length (List.filter not_claude l).
Proof.
  induction 1 as [|s l Hs Hl IH]; [reflexivity|].
  cbn [map List.filter]. rewrite (not_claude_app R s Hs).
  destruct (not_claude s); cbn [length]; by rewrite IH.
Qed.

Lemma seismic_plan d :
  dirs_created (plan d seismic) = seismic_dirs ∧
  files_written (plan d seismic) = seismic_files.
Proof. split; reflexivity. Qed.

Lemma seismic_parts e c m :
  parts (Path (name seismic)) = e ++ c :: m → e = [] ∧ c = "seismic-analysis" ∧ m = [].
Proof.
  change (parts (Path (name seismic))) with ["seismic-analysis"].
  destruct e as [|x [|y e]]; intros H.
  - by injection H as <- <-.
  - by destruct m.
  - discriminate H.
Qed.

(** C3, amended. For the seismic-analysis inputs, in a world where the root
    can be made, [create_project] creates 11 directories: the root, [specs],
    the 6 base and 2 algorithm directories of its plan, and [.claude] (10
    without [.claude]; 8 in the plan); and it writes 11 files: the nine
    documents and the two [.gitkeep] markers. *)
Theorem seismic_scenario (w : World) :
  creatable w (name seismic) →
  ∃ w' log,
    create_project seismic w = Ok (Path "seismic-analysis") w' ∧
    events w' = events w ++ log ∧
    dirs_created log =
      (cwd w ++ ["seismic-analysis"]) ::
      map (app (cwd w ++ ["seismic-analysis"])) seismic_dirs ∧
    files_written log = map (app (cwd w ++ ["seismic-analysis"])) seismic_files ∧
    length (dirs_created log) = 11%nat ∧
    length (List.filter not_claude (dirs_created log)) = 10%nat ∧
    length (files_written log) = 11%nat.
Proof.
  intros Hc. destruct w as [C t d inp out ev].
  destruct (create_project_creates seismic C t d inp out ev Hc)
    as (e & c & m & HP & Hdir & Hfresh & Hrun).
  destruct (seismic_parts _ _ _ HP) as (-> & -> & ->).
  destruct (seismic_plan d) as [Hd Hf].
  eexists _, _. split; [exact Hrun|]. cbn [events cwd].
  split; [reflexivity|].
  rewrite dirs_created_app, files_written_app, dirs_created_mkdirs, files_written_mkdirs.
  rewrite dirs_created_shift, files_written_shift, Hd, Hf.
  change (root_key C (name seismic)) with (C ++ ["seismic-analysis"]).
  change (anchor (absolute (Path (name seismic))) C) with C.
  rewrite app_nil_r. cbn [chain_keys app].
  split; [reflexivity|]. split; [reflexivity|].
  split; [cbn [length]; by rewrite length_map|].
  split; [|by rewrite length_map].
  cbn [List.filter].
  rewrite (not_claude_app C ["seismic-analysis"]) by discriminate.
  change (not_claude ["seismic-analysis"]) with true. cbn [length].
  rewrite filter_not_claude_shift; [reflexivity|].
  repeat constructor; discriminate.
Qed.

(** ** Project Builder: what a run leaves alone *)

Lemma lookup_mkchain_notin : ∀ comps t cur (K : list string),
  K ∉ chain_keys cur comps → mkchain t cur comps !! K = t !! K.
Proof.
  induction comps as [|c comps IH]; intros t cur K Hnotin; cbn [mkchain]; [reflexivity|].
  cbn [chain_keys] in Hnotin. apply not_elem_of_cons in Hnotin as [Hne Hnotin].
  rewrite IH by exact Hnotin. by apply lookup_insert_ne.
Qed.

Lemma chain_keys_prefix : ∀ comps cur (K : list string),
  K ∈ chain_keys cur comps → ∃ p s, comps = p ++ s ∧ p ≠ [] ∧ K = cur ++ p.
Proof.
  induction comps as [|c comps IH]; intros cur K Hin; cbn [chain_keys] in Hin.
  - by apply elem_of_nil in Hin.
  - apply elem_of_cons in Hin as [->|Hin].
    + by exists [c], comps.
    + destruct (IH _ _ Hin) as (p & s & -> & Hp & ->).
      exists (c :: p), s. split; [reflexivity|]. split; [done|].
      by rewrite <- app_assoc.
Qed.

Lemma nested_root_creates_ancestor :
  match create_project nested empty_world with
  | Ok root _ => root = Path "a/b"
  | _ => False
  end ∧
  ["a"] ∈ dirs_created (log_of (create_project nested empty_world)) ∧
  ¬ root_key (cwd empty_world) (name nested) `prefix_of` ["a"].
Proof.
  split; [vm_compute; reflexivity|].
  split; [apply (bool_decide_unpack _); vm_compute; exact I|].
  intros [s Hs]. vm_compute in Hs. discriminate Hs.
Qed.

(** C10, amended. In a world where the project root can be made,
    [create_project] returns the root; every file it writes lies strictly
    below the root; every directory it creates is the root, lies below it,
    or is an ancestor of the root that was missing (made by
    [mkdir(parents=True)]); every entry that existed is kept as it was; and
    every path that is neither below the root nor an ancestor of it is
    untouched. *)
Theorem create_project_stays_at_root (inputs : Inputs) (w : World) :
  creatable w (name inputs) →
  ∃ w' log,
    create_project inputs w = Ok (Path (name inputs)) w' ∧
    events w' = events w ++ log ∧
    (∀ k, k ∈ files_written log →
       root_key (cwd w) (name inputs) `prefix_of` k ∧ k ≠ root_key (cwd w) (name inputs)) ∧
    (∀ k, k ∈ dirs_created log →
       root_key (cwd w) (name inputs) `prefix_of` k ∨
       (k `prefix_of` root_key (cwd w) (name inputs) ∧ fs w !! k = None)) ∧
    (∀ k n, fs w !! k = Some n → fs w' !! k = Some n) ∧
    (∀ k, ¬ root_key (cwd w) (name inputs) `prefix_of` k →
          ¬ k `prefix_of` root_key (cwd w) (name inputs) →
          fs w' !! k = fs w !! k).
Proof.
  intros Hc. destruct w as [C t d inp out ev].
  destruct (create_project_creates inputs C t d inp out ev Hc)
    as (e & c & m & HP & Hdir & Hfresh & Hrun).
  destruct (root_base_ok _ C _ e c m t HP Hdir Hfresh) as [Hb1 Hb2].
  set (A := anchor (absolute (Path (name inputs))) C) in *.
  assert (HR : root_key C (name inputs) = (A ++ e) ++ c :: m).
  { unfold root_key. fold A. rewrite HP. by rewrite <- app_assoc. }
  assert (Hchain : ∀ k, k ∈ chain_keys (A ++ e) (c :: m) →
            k `prefix_of` root_key C (name inputs) ∧ t !! k = None).
  { intros k Hk. apply chain_keys_prefix in Hk as (p & s & Hps & Hp & ->).
    destruct p as [|x p]; [done|]. injection Hps as <- ->. split.
    - exists s. rewrite HR. by rewrite <- !app_assoc.
    - rewrite <- app_assoc. apply Hfresh. }
  assert (Hbelow : ∀ s, t !! (root_key C (name inputs) ++ s) = None).
  { intros s. rewrite HR, <- !app_assoc. apply Hfresh. }
  eexists _, _. split; [exact Hrun|]. clear Hrun. cbn [events fs cwd].
  split; [reflexivity|].
  rewrite files_written_app, files_written_mkdirs, files_written_shift.
  rewrite dirs_created_app, dirs_created_mkdirs, dirs_created_shift.
  cbn [app]. split; [|split; [|split]].
  - intros k (rel & Hrel & ->)%elem_of_map_app. split; [by exists rel|].
    intros Heq. rewrite <- (app_nil_r (root_key C (name inputs))) in Heq at 2.
    apply app_inv_head in Heq as ->. by apply plan_files_nonempty in Hrel.
  - intros k [Hk|Hk]%elem_of_app.
    + right. by apply Hchain.
    + left. apply elem_of_map_app in Hk as (rel & _ & ->). by exists rel.
  - intros k n Hk.
    rewrite graft_lookup_off.
    + rewrite lookup_mkchain_notin; [exact Hk|].
      intros Hin. apply Hchain in Hin as [_ Hnone]. congruence.
    + intros s ->. rewrite Hbelow in Hk. discriminate.
  - intros k Hnb Hna.
    rewrite graft_lookup_off.
    + apply lookup_mkchain_notin. intros Hin. by apply Hchain in Hin as [Hp _].
    + intros s ->. apply Hnb. by exists s.
Qed.

Lemma creatable_nested : creatable empty_world (name nested).
Proof.
  apply creatable_empty_world; [vm_compute; reflexivity|].
  apply (bool_decide_unpack _). vm_compute. exact I.
Qed.

Lemma create_project_stays_at_root_witness :
  creatable empty_world (name nested) ∧
  ∃ w' log,
    create_project nested empty_world = Ok (Path (name nested)) w' ∧
    events w' = events empty_world ++ log ∧
    (∀ k, k ∈ dirs_created log →
       root_key (cwd empty_world) (name nested) `prefix_of` k ∨
       (k `prefix_of` root_key (cwd empty_world) (name nested) ∧
        fs empty_world !! k = None)).
Proof.
  split; [exact creatable_nested|].
  destruct (create_project_stays_at_root nested empty_world creatable_nested)
    as (w' & log & Hrun & Hev & _ & Hdirs & _).
  exists w', log. split; [exact Hrun|]. split; [exact Hev | exact Hdirs].
Defined.

Lemma seismic_scenario_witness :
  creatable empty_world (name seismic) ∧
  ∃ w' log,
    create_project seismic empty_world = Ok (Path "seismic-analysis") w' ∧
    events w' = events empty_world ++ log ∧
    length (dirs_created log) = 11%nat ∧
    length (files_written log) = 11%nat.
Proof.
  split; [exact creatable_seismic|].
  destruct (seismic_scenario empty_world creatable_seismic)
    as (w' & log & Hrun & Hev & _ & _ & Hd & _ & Hf).
  exists w', log. split; [exact Hrun|]. split; [exact Hev|]. split; [exact Hd | exact Hf].
Defined.

(** The seismic-analysis run does not make 7 directories and 10 files: it
    makes 10 directories besides [.claude] and 11 files. *)
Lemma seismic_not_7_dirs_10_files :
  match create_project seismic empty_world with
  | Ok root _ => root = Path "seismic-analysis"
  | _ => False
  end ∧
  length (List.filter not_claude
            (dirs_created (log_of (create_project seismic empty_world)))) = 10%nat ∧
  length (files_written (log_of (create_project seismic empty_world))) = 11%nat ∧
  ¬ (length (List.filter not_claude
               (dirs_created (log_of (create_project seismic empty_world)))) = 7%nat ∧
     length (files_written (log_of (create_project seismic empty_world))) = 10%nat).
Proof.
  split; [vm_compute; reflexivity|].
  split; [vm_compute; reflexivity|].
  split; [vm_compute; reflexivity|].
  intros [H _]. vm_compute in H. discriminate H.
Qed.

(** ** Content of the files written *)

(** The README that the seismic-analysis run writes has no change record. *)
Lemma readme_has_no_change_record :
  EvWrite ["seismic-analysis"; "README.md"]
    (readme_template "seismic-analysis" "Detect quakes")
    ∈ log_of (create_project seismic empty_world) ∧
  ¬ occurs_in "## Change Record" (readme_template "seismic-analysis" "Detect quakes").
Proof.
  split.
  - apply list_elem_of_In. vm_compute. do 16 right. left. reflexivity.
  - rewrite <- occursb_spec. vm_compute. discriminate.
Qed.

(** C8, amended. Every document that [create_project] writes below [specs/]
    contains a "## Change Record" section, and every one of them other than
    [specs/spec-format.md] has a line [**Status**: value]. *)
Theorem spec_documents_have_status_and_change_record (inputs : Inputs) (w : World) :
  creatable w (name inputs) →
  ∃ w' log,
    create_project inputs w = Ok (Path (name inputs)) w' ∧
    events w' = events w ++ log ∧
    ∀ rest data,
      EvWrite (root_key (cwd w) (name inputs) ++ "specs" :: rest) data ∈ log →
      occurs_in "## Change Record" data ∧
      (rest ≠ ["spec-format.md"] → has_status_line data).
Proof.
  intros Hc. destruct w as [C t d inp out ev].
  destruct (create_project_creates inputs C t d inp out ev Hc)
    as (e & c & m & HP & Hdir & Hfresh & Hrun).
  eexists _, _. split; [exact Hrun|]. clear Hrun. cbn [events cwd].
  split; [reflexivity|].
  intros rest data [Hin|Hin]%elem_of_app.
  - apply list_elem_of_In, in_map_iff in Hin as (k & Hk & _). discriminate Hk.
  - apply list_elem_of_In, in_map_iff in Hin as (ev0 & Hshift & Hin).
    pose proof (plan_spec_docs d inputs) as Hall.
    rewrite List.Forall_forall in Hall. specialize (Hall _ Hin).
    destruct ev0 as [k|k data'|k|k]; try discriminate Hshift.
    cbn [shift] in Hshift. injection Hshift as Hk ->.
    apply app_inv_head in Hk as ->. exact Hall.
Qed.

Lemma spec_documents_have_status_and_change_record_witness :
  creatable empty_world (name seismic) ∧
  ∃ w' log,
    create_project seismic empty_world = Ok (Path (name seismic)) w' ∧
    events w' = events empty_world ++ log ∧
    ∀ rest data,
      EvWrite (root_key (cwd empty_world) (name seismic) ++ "specs" :: rest) data ∈ log →
      occurs_in "## Change Record" data ∧
      (rest ≠ ["spec-format.md"] → has_status_line data).
Proof.
  split; [exact creatable_seismic|].
  exact (spec_documents_have_status_and_change_record seismic empty_world creatable_seismic).
Defined.

(** ** The clock *)





(** ** Input Collector: every dialogue *)

Lemma invalid_choice_none line : invalid_choice 0 line.
Proof. intros i _ H. cbn in H. lia. Qed.

(** X1. With an empty list of options [prompt_choice] accepts no response:
    whatever the input is, it prints the question, answers every line read
    with "Please enter a number between 1 and 0", reads the input to its end
    and raises [EOFError]; it never returns. *)
Theorem prompt_choice_empty_options (question : string) (inp : list string) c t d out ev :
  prompt_choice question [] (mkWorld c t d inp out ev) =
  Raise EOFError
    (mkWorld c t d []
       (out ++ [ln ("
" +:+ question)] ++
        flat_map (λ _, ["Enter number: "; ln "Please enter a number between 1 and 0"]) inp ++
        ["Enter number: "]) ev).
Proof.
  rewrite prompt_choice_eof.
  - reflexivity.
  - apply Forall_forall. intros x _. apply invalid_choice_none.
Qed.

Lemma read_name_eof_world {B} (k : string → M B) blanks c t d out ev :
  Forall (λ l, strip l = "") blanks →
  ∃ more, (name ← prompt "Project name (e.g., seismic-analysis)" "";
   name ← (if negb (String.eqb name "") then mret name else while_True name_loop_body);
   k name) (mkWorld c t d blanks out ev) =
   Raise EOFError (mkWorld c t d [] (out ++ more) ev).
Proof.
  intros Hb. destruct blanks as [|b blanks].
  - eexists. rewrite bind_run, prompt_eof_plain. reflexivity.
  - inversion Hb as [|? ? Hb1 Hb2]; subst.
    eexists. rewrite bind_run, prompt_run_plain. rewrite Hb1.
    rewrite bind_run. cbn [String.eqb negb]. unfold while_True. cbn [stdin].
    rewrite <- (app_nil_r blanks) at 2.
    replace (S (length blanks)) with (length blanks + 1)%nat by lia.
    rewrite loop_name_blank by assumption.
    cbn [loop]. rewrite bind_run. unfold name_loop_body. io.
    rewrite <- !app_assoc. reflexivity.
Qed.

(** Every run of [gather_inputs]: a complete dialogue, or the end of input. *)
Lemma gather_inputs_cases c t d inp out ev :
  (∃ blanks nm dline bad1 g1 i1 bad2 g2 i2 rest o1 o2,
     inp = blanks ++ nm :: dline :: bad1 ++ g1 :: bad2 ++ g2 :: rest ∧
     Forall (λ l, strip l = "") blanks ∧ strip nm ≠ "" ∧
     Forall (invalid_choice (length PROJECT_TYPES)) bad1 ∧
     valid_choice (length PROJECT_TYPES) g1 i1 ∧
     Forall (invalid_choice (length AI_TOOLS)) bad2 ∧
     valid_choice (length AI_TOOLS) g2 i2 ∧
     PROJECT_TYPES !! Z.to_nat (i1 - 1) = Some o1 ∧
     AI_TOOLS !! Z.to_nat (i2 - 1) = Some o2 ∧
     gather_inputs (mkWorld c t d inp out ev) =
     Ok (mkInputs (strip nm)
           (if String.eqb (strip dline) "" then DEFAULT_DESCRIPTION else strip dline) o1 o2)
        (mkWorld c t d rest (out ++ gather_dialogue blanks bad1 bad2) ev)) ∨
  (∃ more, gather_inputs (mkWorld c t d inp out ev) =
           Raise EOFError (mkWorld c t d [] (out ++ more) ev)).
Proof.
  destruct (first_nonblank inp) as [Hall | (blanks & nm & rest1 & -> & Hb & Hn)].
  { right. unfold gather_inputs. rewrite bind_run.
    unfold print at 1, emit. cbn -[prompt prompt_choice].
    edestruct (read_name_eof_world (B := Inputs)) as [more Hm]; [exact Hall|].
    rewrite Hm. exists ([ln "
=== Spec-Driven Project Scaffolder ===
"] ++ more). by rewrite <- app_assoc. }
  destruct rest1 as [|dline tail].
  { right. unfold gather_inputs. rewrite bind_run.
    unfold print at 1, emit. cbn -[prompt prompt_choice].
    rewrite read_name_run by assumption.
    rewrite bind_run, prompt_eof_default by apply DEFAULT_DESCRIPTION_nonempty.
    eexists. rewrite <- !app_assoc. reflexivity. }
  destruct (first_valid_choice (length PROJECT_TYPES) tail)
    as [Hall1 | (bad1 & g1 & rest2 & i1 & -> & Hb1 & Hg1)].
  { right. unfold gather_inputs. rewrite bind_run.
    unfold print at 1, emit. cbn -[prompt prompt_choice].
    rewrite read_name_run by assumption.
    rewrite bind_run, prompt_run_default by apply DEFAULT_DESCRIPTION_nonempty.
    rewrite bind_run, prompt_choice_eof by assumption.
    eexists. rewrite <- !app_assoc. reflexivity. }
  destruct (first_valid_choice (length AI_TOOLS) rest2)
    as [Hall2 | (bad2 & g2 & rest & i2 & -> & Hb2 & Hg2)].
  { right. unfold gather_inputs. rewrite bind_run.
    unfold print at 1, emit. cbn -[prompt prompt_choice].
    rewrite read_name_run by assumption.
    rewrite bind_run, prompt_run_default by apply DEFAULT_DESCRIPTION_nonempty.
    rewrite bind_run.
    match goal with
    | |- context [prompt_choice ?q ?o (mkWorld _ _ _ _ ?out' _)] =>
        destruct (prompt_choice_selects q o bad1 g1 rest2 i1 c t d out' ev Hb1 Hg1)
          as (o1' & Ho1' & ->)
    end.
    rewrite bind_run, prompt_choice_eof by assumption.
    eexists. rewrite <- !app_assoc. reflexivity. }
  left.
  destruct (gather_inputs_run blanks nm dline bad1 g1 i1 bad2 g2 i2 rest c t d out ev)
    as (o1 & o2 & Ho1 & Ho2 & Hrun); try assumption.
  exists blanks, nm, dline, bad1, g1, i1, bad2, g2, i2, rest, o1, o2.
  repeat (split; [first [reflexivity | assumption]|]). exact Hrun.
Qed.



Lemma description_nonempty dline :
  (if String.eqb (strip dline) "" then DEFAULT_DESCRIPTION else strip dline) ≠ "".
Proof.
  destruct (String.eqb (strip dline) "") eqn:E; [discriminate|].
  intros H. rewrite H in E. discriminate E.
Qed.

(** X3. Every run of [gather_inputs] ends in one of two ways. Either it
    returns a record whose name and description are non-empty and whose
    project type and AI tool are entries of the two menus, having read a
    prefix of the input; or the input ran out and it raises [EOFError] with
    nothing left to read. It raises nothing else, its loops are never cut
    short, and in both cases the working directory, the file tree, the clock
    and the log of system calls are untouched and the output only grows. *)
Theorem gather_inputs_outcomes (w : World) :
  (∃ r w', gather_inputs w = Ok r w' ∧
     name r ≠ "" ∧ description r ≠ "" ∧
     project_type r ∈ PROJECT_TYPES ∧ ai_tool r ∈ AI_TOOLS ∧
     same_tree w w' ∧ stdin w' `suffix_of` stdin w ∧ stdout w `prefix_of` stdout w') ∨
  (∃ w', gather_inputs w = Raise EOFError w' ∧
     same_tree w w' ∧ stdin w' = [] ∧ stdout w `prefix_of` stdout w').
Proof.
  destruct w as [c t d inp out ev].
  destruct (gather_inputs_cases c t d inp out ev)
    as [(blanks & nm & dline & bad1 & g1 & i1 & bad2 & g2 & i2 & rest & o1 & o2 &
         -> & Hb & Hn & Hb1 & Hg1 & Hb2 & Hg2 & Ho1 & Ho2 & Hrun) | (more & Hrun)].
  - left. eexists _, _. split; [exact Hrun|]. clear Hrun. cbn.
    split; [exact Hn|]. split; [apply description_nonempty|].
    split; [eapply list_elem_of_lookup_2, Ho1|].
    split; [eapply list_elem_of_lookup_2, Ho2|].
    split; [by repeat split|]. split.
    + exists (blanks ++ nm :: dline :: bad1 ++ g1 :: bad2 ++ [g2]).
      repeat first [rewrite <- app_assoc | progress cbn [app]]. reflexivity.
    + by eexists.
  - right. eexists. split; [exact Hrun|]. clear Hrun. cbn.
    split; [by repeat split|]. split; [reflexivity|]. by eexists.
Qed.

(** Stripping what is already stripped changes nothing. *)
Lemma lstrip_id s :
  (∀ c, first_char s = Some c → is_space c = false) → lstrip s = s.
Proof. destruct s as [|c r]; [reflexivity|]. intros H. cbn. by rewrite (H c). Qed.

Lemma rstrip_id s :
  (∀ c, last_char s = Some c → is_space c = false) → rstrip s = s.
Proof.
  induction s as [|c r IH]; [reflexivity|]. intros H.
  destruct r as [|c' r'].
  - cbn. by rewrite (H c).
  - specialize (IH H).
    change (rstrip (String c (String c' r'))) with
      (match rstrip (String c' r') with
       | EmptyString => if is_space c then EmptyString else String c EmptyString
       | r0 => String c r0
       end).
    rewrite IH. reflexivity.
Qed.

Lemma strip_idempotent s : strip (strip s) = strip s.
Proof.
  unfold strip at 1. rewrite lstrip_id by apply strip_no_leading_space.
  apply rstrip_id, strip_no_trailing_space.
Qed.

Lemma valid_choice_str_nat (options : list string) (k : nat) o :
  length options = 4%nat → options !! k = Some o →
  valid_choice (length options) (str_nat (S k)) (Z.of_nat (S k)).
Proof.
  intros Hlen Hk. apply lookup_lt_Some in Hk. rewrite Hlen in *.
  destruct k as [|[|[|[|k]]]]; try lia; (split; [reflexivity | lia]).
Qed.

(** X4. A record returned by [gather_inputs] replays: answering the four
    questions with its name, its description and the 1-based positions of its
    project type and AI tool in the menus makes [gather_inputs] return the
    same record, with no question asked twice. *)
Theorem gather_inputs_replay (w : World) (r : Inputs) (w' : World) :
  gather_inputs w = Ok r w' →
  ∃ k1 k2 : nat,
    PROJECT_TYPES !! k1 = Some (project_type r) ∧
    AI_TOOLS !! k2 = Some (ai_tool r) ∧
    ∀ c t d rest out ev,
      gather_inputs
        (mkWorld c t d
           (name r :: description r :: str_nat (S k1) :: str_nat (S k2) :: rest) out ev) =
      Ok r (mkWorld c t d rest (out ++ gather_dialogue [] [] []) ev).
Proof.
  destruct w as [c0 t0 d0 inp0 out0 ev0]. intros Hrun.
  destruct (gather_inputs_cases c0 t0 d0 inp0 out0 ev0)
    as [(blanks & nm & dline & bad1 & g1 & i1 & bad2 & g2 & i2 & rest0 & o1 & o2 &
         -> & Hb & Hn & Hb1 & Hg1 & Hb2 & Hg2 & Ho1 & Ho2 & Hrun') | (more & Hrun')];
    rewrite Hrun' in Hrun; [|discriminate].
  injection Hrun as <- <-. clear Hrun'. cbn [name description project_type ai_tool].
  exists (Z.to_nat (i1 - 1)), (Z.to_nat (i2 - 1)).
  split; [exact Ho1|]. split; [exact Ho2|].
  intros c t d rest out ev.
  set (desc := if String.eqb (strip dline) "" then DEFAULT_DESCRIPTION else strip dline).
  destruct (gather_inputs_run [] (strip nm) desc
              [] (str_nat (S (Z.to_nat (i1 - 1)))) (Z.of_nat (S (Z.to_nat (i1 - 1))))
              [] (str_nat (S (Z.to_nat (i2 - 1)))) (Z.of_nat (S (Z.to_nat (i2 - 1))))
              rest c t d out ev)
    as (o1' & o2' & Ho1' & Ho2' & Hrun).
  - constructor.
  - by rewrite strip_idempotent.
  - constructor.
  - by eapply valid_choice_str_nat.
  - constructor.
  - by eapply valid_choice_str_nat.
  - cbn [app] in Hrun. rewrite Hrun. f_equal.
    replace (Z.to_nat (Z.of_nat (S (Z.to_nat (i1 - 1))) - 1)) with (Z.to_nat (i1 - 1))
      in Ho1' by lia.
    replace (Z.to_nat (Z.of_nat (S (Z.to_nat (i2 - 1))) - 1)) with (Z.to_nat (i2 - 1))
      in Ho2' by lia.
    rewrite Ho1 in Ho1'. rewrite Ho2 in Ho2'. injection Ho1' as <-. injection Ho2' as <-.
    rewrite strip_idempotent. f_equal.
    unfold desc. destruct (String.eqb (strip dline) "") eqn:E; [reflexivity|].
    rewrite strip_idempotent, E. reflexivity.
Qed.

Lemma gather_inputs_replay_witness :
  ∃ r w',
    gather_inputs (mkWorld [] ∅ (mkDate 2026 11 3)
                     ["  "; " seismic-analysis "; " "; "7"; "3"; "x"; "1"] [] []) = Ok r w' ∧
    gather_inputs (mkWorld [] ∅ (mkDate 2026 11 3)
                     [name r; description r; "3"; "1"] [] []) =
    Ok r (mkWorld [] ∅ (mkDate 2026 11 3) [] ([] ++ gather_dialogue [] [] []) []).
Proof.
  pose (w := mkWorld [] ∅ (mkDate 2026 11 3)
               ["  "; " seismic-analysis "; " "; "7"; "3"; "x"; "1"] [] []).
  pose (r := mkInputs "seismic-analysis" "A spec-driven scientific project"
               "Algorithm implementation" "Claude Code").
  assert (Hrun : gather_inputs w =
            Ok r (mkWorld [] ∅ (mkDate 2026 11 3) []
                    ([] ++ gather_dialogue ["  "] ["7"] ["x"]) []))
    by (vm_compute; reflexivity).
  exists r, (mkWorld [] ∅ (mkDate 2026 11 3) []
               ([] ++ gather_dialogue ["  "] ["7"] ["x"]) []).
  split; [exact Hrun|].
  destruct (gather_inputs_replay w r _ Hrun) as (k1 & k2 & H1 & H2 & Hre).
  assert (k1 = 2%nat) as ->.
  { destruct k1 as [|[|[|[|k1]]]]; try discriminate H1; reflexivity. }
  assert (k2 = 0%nat) as ->.
  { destruct k2 as [|[|[|[|k2]]]]; try discriminate H2; reflexivity. }
  exact (Hre [] ∅ (mkDate 2026 11 3) [] [] []).
Defined.

(** ** Project Builder: what the system calls leave alone *)




























(** ** Project Builder: a root that cannot be made *)

(** Path resolution fails with [ENOENT] or [ENOTDIR] only. *)
Lemma resolve_errors t : ∀ comps cur n e,
  resolve t cur n comps = inl e → e = ENOENT ∨ e = ENOTDIR.
Proof.
  induction comps as [|c comps IH]; intros cur n e H; cbn [resolve] in H; [discriminate|].
  destruct n; [|injection H as <-; by right].
  destruct (t !! (cur ++ [c])); [by eapply IH | injection H as <-; by left].
Qed.

Lemma stat_errors t k e : stat t k = inl e → e = ENOENT ∨ e = ENOTDIR.
Proof. apply resolve_errors. Qed.

Lemma stat_below_error t k s e : stat t k = inl e → stat t (k ++ s) = inl e.
Proof. intros H. unfold stat in *. by rewrite resolve_app, H. Qed.

(** [mkdir(parents=True)] below something that is not a directory. *)
Lemma mkdir_parents_enotdir a P x exist_ok w :
  stat (fs w) (anchor a (cwd w) ++ P) = inl ENOTDIR →
  mkdir (mkPath a (P ++ [x])) true exist_ok w = Raise (OSError ENOTDIR) w.
Proof.
  intros Hs. unfold mkdir. cbn [absolute parts]. rewrite mkdir_parents_snoc.
  unfold try_except.
  rewrite (os_mkdir_unfold _ w (anchor a (cwd w) ++ P) x)
    by (rewrite path_key_anchor; by rewrite app_assoc).
  rewrite Hs. unfold mkdir_exists. rewrite bind_run.
  unfold is_dir, try_except. rewrite bind_run. unfold os_stat.
  rewrite path_key_anchor, app_assoc, (stat_below_error _ _ _ _ Hs).
  cbn. by destruct exist_ok.
Qed.

Lemma create_project_enotdir inputs w :
  stat (fs w) (root_key (cwd w) (name inputs)) = inl ENOTDIR →
  create_project inputs w = Raise (OSError ENOTDIR) w.
Proof.
  intros Hs. unfold create_project. cbv zeta. rewrite bind_run.
  rewrite (exists_missing _ _ ENOTDIR) by (first [by rewrite path_key_root | by right]).
  cbv beta iota. rewrite bind_run. cbn [mret M_ret]. cbv beta iota.
  rewrite !joinpath_plain by reflexivity. cbn [absolute parts].
  rewrite bind_run.
  assert (Hfirst : mkdir (mkPath (absolute (Path (name inputs)))
                     ((parts (Path (name inputs)) ++ ["specs"]) ++ ["01-requirements"]))
                     true true w = Raise (OSError ENOTDIR) w).
  { apply mkdir_parents_enotdir. rewrite app_assoc. by apply stat_below_error. }
  destruct (String.eqb (project_type inputs) "Algorithm implementation");
    cbn [app for_each]; rewrite bind_run, Hfirst; reflexivity.
Qed.

(** X6. If the walk to the project root meets a regular file (the name is
    [a/b] where [a] is a file), [Path.exists] answers false, the first
    [mkdir] fails with [NotADirectoryError], and [create_project] lets it
    through: the run ends with that [OSError], exit status 1, and the world
    exactly as it was. *)
Theorem create_project_not_a_directory (inputs : Inputs) (w : World) :
  stat (fs w) (root_key (cwd w) (name inputs)) = inl ENOTDIR →
  create_project inputs w = Raise (OSError ENOTDIR) w ∧
  exit_status (create_project inputs w) = Some 1.
Proof.
  intros Hs. rewrite (create_project_enotdir _ _ Hs). by split.
Qed.

Lemma create_project_not_a_directory_witness :
  stat (fs file_world) (root_key (cwd file_world) (name nested)) = inl ENOTDIR ∧
  create_project nested file_world = Raise (OSError ENOTDIR) file_world.
Proof.
  assert (H : stat (fs file_world) (root_key (cwd file_world) (name nested)) = inl ENOTDIR)
    by (vm_compute; reflexivity).
  split; [exact H|].
  exact (proj1 (create_project_not_a_directory nested file_world H)).
Defined.



(** X12. A name that [Path] reduces to no component (the empty string, ".",
    "./", "/") denotes the working directory or the file-system root, which
    exists: [create_project] reports "already exists" and ends with status
    1. *)
Theorem create_project_refuses_empty_path (inputs : Inputs) (w : World) :
  parts (Path (name inputs)) = [] → stat (fs w) (cwd w) = inr Dir →
  create_project inputs w =
    Raise (SystemExit 1) (emit (exists_message (name inputs)) w) ∧
  exit_status (create_project inputs w) = Some 1.
Proof.
  intros HP Hcwd.
  assert (Hs : stat (fs w) (root_key (cwd w) (name inputs)) = inr Dir).
  { unfold root_key, anchor. rewrite HP, app_nil_r.
    by destruct (absolute (Path (name inputs))). }
  rewrite (create_project_exists _ _ _ Hs). by split.
Qed.

Lemma create_project_refuses_empty_path_witness :
  parts (Path "./") = [] ∧ stat (fs empty_world) (cwd empty_world) = inr Dir ∧
  create_project (mkInputs "./" "" "General" "Other/None") empty_world =
  Raise (SystemExit 1) (emit (exists_message "./") empty_world).
Proof.
  split; [reflexivity|]. split; [reflexivity|].
  exact (proj1 (create_project_refuses_empty_path
                  (mkInputs "./" "" "General" "Other/None") empty_world eq_refl eq_refl)).
Defined.

(** ** Project Builder: the tree after a run *)

(** X8. After a successful run every file holds the rendering of its own
    template: the six documents of every project, the two empty [.gitkeep]
    markers, the data-flow document of a data pipeline, the two documents of
    an algorithm implementation, and the configuration file of the AI tool,
    each rendered with the name (and description, and clock) of the inputs. *)
Theorem create_project_file_contents (inputs : Inputs) (w : World) :
  creatable w (name inputs) →
  ∃ w', create_project inputs w = Ok (Path (name inputs)) w' ∧
    let file rel := fs w' !! (root_key (cwd w) (name inputs) ++ rel) in
    file ["specs"; "spec-format.md"] = Some (File SPEC_FORMAT) ∧
    file ["specs"; "00-overview.md"] =
      Some (File (overview_template (clock w) (name inputs) (description inputs))) ∧
    file ["specs"; "01-requirements"; "functional.md"] = Some (File FUNCTIONAL_REQUIREMENTS) ∧
    file ["specs"; "99-decisions"; "adr-000-template.md"] = Some (File ADR_TEMPLATE) ∧
    file ["README.md"] = Some (File (readme_template (name inputs) (description inputs))) ∧
    file ["CONTRIBUTING.md"] = Some (File (contributing_template (name inputs))) ∧
    file ["src"; ".gitkeep"] = Some (File "") ∧
    file ["tests"; ".gitkeep"] = Some (File "") ∧
    (project_type inputs = "Data pipeline" →
     file ["specs"; "02-architecture"; "data-flow.md"] = Some (File DATA_FLOW_TEMPLATE)) ∧
    (project_type inputs = "Algorithm implementation" →
     file ["specs"; "04-algorithms"; "algorithm-template.md"] =
       Some (File ALGORITHM_SPEC_TEMPLATE) ∧
     file ["specs"; "05-validation"; "validation-plan.md"] =
       Some (File VALIDATION_SPEC_TEMPLATE)) ∧
    (ai_tool inputs = "Claude Code" →
     file [".claude"; "CLAUDE.md"] = Some (File (claude_md_template (name inputs)))) ∧
    (ai_tool inputs = "Cursor" →
     file [".cursorrules"] = Some (File (cursorrules_template (name inputs)))) ∧
    (ai_tool inputs = "GitHub Copilot" →
     file [".github"; "copilot-instructions.md"] =
       Some (File (copilot_instructions_template (name inputs)))).
Proof.
  intros Hc. destruct w as [C t d inp out ev].
  destruct (create_project_creates inputs C t d inp out ev Hc)
    as (e & c & m & HP & Hdir & Hfresh & Hrun).
  destruct (root_base_ok _ C _ e c m t HP Hdir Hfresh) as [Hb1 Hb2].
  eexists. split; [exact Hrun|]. clear Hrun. cbn [fs cwd clock]. cbv zeta.
  fold (root_key C (name inputs)) in Hb2.
  rewrite !(graft_lookup _ _ Hb2) by discriminate.
  destruct inputs as [nm desc pt tool]. cbn [name description project_type ai_tool].
  unfold plan, plan_dirs, plan_files, plan_ai. cbn [name description project_type ai_tool].
  destruct (String.eqb pt "Algorithm implementation") eqn:Halgo;
    destruct (String.eqb pt "Data pipeline") eqn:Hdata;
    (destruct (String.eqb tool "Claude Code") eqn:Hclaude;
     [|destruct (String.eqb tool "Cursor") eqn:Hcursor;
       [|destruct (String.eqb tool "GitHub Copilot") eqn:Hcopilot]]).
  all: repeat split; try reflexivity.
  all: intros; subst; try reflexivity.
  all: match goal with H : String.eqb _ _ = _ |- _ => vm_compute in H; discriminate H end.
Qed.

Lemma create_project_file_contents_witness :
  creatable empty_world (name seismic) ∧
  ∃ w', create_project seismic empty_world = Ok (Path (name seismic)) w' ∧
    fs w' !! ["seismic-analysis"; "README.md"] =
      Some (File (readme_template "seismic-analysis" "Detect quakes")) ∧
    fs w' !! ["seismic-analysis"; ".claude"; "CLAUDE.md"] =
      Some (File (claude_md_template "seismic-analysis")).
Proof.
  split; [exact creatable_seismic|].
  destruct (create_project_file_contents seismic empty_world creatable_seismic)
    as (w' & Hrun & _ & _ & _ & _ & Hreadme & _ & _ & _ & _ & _ & Hclaude & _).
  exists w'. split; [exact Hrun|]. split; [exact Hreadme | exact (Hclaude eq_refl)].
Defined.

Lemma elem_of_entries k n log : (k, n) ∈ entries log ↔ ∃ e, e ∈ log ∧ (k, n) ∈ entry_of e.
Proof.
  unfold entries. rewrite elem_of_rev, list_elem_of_In, in_flat_map.
  split; intros (e & He & Hk); exists e.
  - by rewrite !list_elem_of_In.
  - by rewrite <- !list_elem_of_In.
Qed.

Lemma elem_of_dirs_created k log : k ∈ dirs_created log ↔ EvMkdir k ∈ log.
Proof.
  unfold dirs_created. rewrite list_elem_of_In, in_flat_map. split.
  - intros (e & He & Hk). destruct e; cbn in Hk; try done.
    destruct Hk as [->|[]]. by apply list_elem_of_In.
  - intros H. exists (EvMkdir k). split; [by apply list_elem_of_In | by left].
Qed.

Lemma assoc_dirs_created k log :
  NoDup ((entries log).*1) →
  assoc k (entries log) = Some Dir ↔ k ∈ dirs_created log.
Proof.
  intros Hnd. rewrite elem_of_dirs_created. split.
  - intros H. apply assoc_elem_of, elem_of_entries in H as (e & He & Hk).
    destruct e; cbn [entry_of] in Hk.
    + apply list_elem_of_singleton in Hk. by injection Hk as ->.
    + apply list_elem_of_singleton in Hk. discriminate Hk.
    + apply list_elem_of_singleton in Hk. discriminate Hk.
    + by apply elem_of_nil in Hk.
  - intros H. apply elem_of_assoc; [exact Hnd|].
    apply elem_of_entries. exists (EvMkdir k). split; [exact H|].
    by apply list_elem_of_singleton.
Qed.

Lemma dirs_created_plan d inputs :
  dirs_created (plan d inputs) = expected_dirs (project_type inputs) (ai_tool inputs).
Proof.
  unfold plan, plan_dirs, plan_files, plan_ai, expected_dirs.
  destruct (String.eqb (project_type inputs) "Algorithm implementation"),
           (String.eqb (project_type inputs) "Data pipeline").
  all: destruct (String.eqb (ai_tool inputs) "Claude Code");
    [|destruct (String.eqb (ai_tool inputs) "Cursor");
      [|destruct (String.eqb (ai_tool inputs) "GitHub Copilot")]].
  all: reflexivity.
Qed.

(** X9. After a successful run the directories at and below the root are
    exactly the root, [specs] with its four base subdirectories, [src] and
    [tests], plus [specs/04-algorithms] and [specs/05-validation] for an
    algorithm implementation, plus [.claude] for Claude Code or [.github] for
    GitHub Copilot. *)
Theorem create_project_directories (inputs : Inputs) (w : World) :
  creatable w (name inputs) →
  ∃ w', create_project inputs w = Ok (Path (name inputs)) w' ∧
    ∀ rel, fs w' !! (root_key (cwd w) (name inputs) ++ rel) = Some Dir ↔
           rel = [] ∨ rel ∈ expected_dirs (project_type inputs) (ai_tool inputs).
Proof.
  intros Hc. destruct w as [C t d inp out ev].
  destruct (create_project_creates inputs C t d inp out ev Hc)
    as (e & c & m & HP & Hdir & Hfresh & Hrun).
  destruct (root_base_ok _ C _ e c m t HP Hdir Hfresh) as [Hb1 Hb2].
  eexists. split; [exact Hrun|]. clear Hrun. cbn [fs cwd].
  fold (root_key C (name inputs)) in Hb1, Hb2.
  assert (HR : root_key C (name inputs) ≠ []).
  { unfold root_key. rewrite HP. by destruct (anchor _ _), e. }
  intros [|x rel].
  - rewrite app_nil_r, graft_lookup_root by apply plan_proper.
    rewrite (stat_lookup _ _ _ Hb1 HR). split; [by left | done].
  - rewrite (graft_lookup _ _ Hb2) by done.
    rewrite assoc_dirs_created by apply plan_keys_nodup.
    rewrite dirs_created_plan. split; [by right | by intros [?|?]].
Qed.

Lemma create_project_directories_witness :
  creatable empty_world (name seismic) ∧
  ∃ w', create_project seismic empty_world = Ok (Path (name seismic)) w' ∧
    fs w' !! ["seismic-analysis"; "specs"; "04-algorithms"] = Some Dir ∧
    fs w' !! ["seismic-analysis"; ".github"] ≠ Some Dir.
Proof.
  split; [exact creatable_seismic|].
  destruct (create_project_directories seismic empty_world creatable_seismic)
    as (w' & Hrun & Hdirs).
  exists w'. split; [exact Hrun|]. split.
  - apply (Hdirs ["specs"; "04-algorithms"]). right.
    apply (bool_decide_unpack _). vm_compute. exact I.
  - intros H. apply (Hdirs [".github"]) in H as [H|H]; [discriminate H|].
    revert H. apply (bool_decide_unpack _). vm_compute. exact I.
Defined.

Lemma lookup_mkchain_in : ∀ comps t cur (K : list string),
  K ∈ chain_keys cur comps → mkchain t cur comps !! K = Some Dir.
Proof.
  induction comps as [|c comps IH]; intros t cur K Hin; cbn [chain_keys mkchain] in *.
  - by apply elem_of_nil in Hin.
  - apply elem_of_cons in Hin as [->|Hin]; [|by apply IH].
    rewrite lookup_mkchain_short by lia. apply lookup_insert_eq.
Qed.

Lemma chain_keys_nodup : ∀ comps cur, NoDup (chain_keys cur comps).
Proof.
  induction comps as [|c comps IH]; intros cur; cbn [chain_keys]; constructor; [|apply IH].
  intros Hin. apply chain_keys_prefix in Hin as (p & s & _ & Hp & Heq).
  rewrite <- (app_nil_r (cur ++ [c])) in Heq at 1. apply app_inv_head in Heq. by subst p.
Qed.

Lemma event_key_shift R e : event_key (shift R e) = R ++ event_key e.
Proof. by destruct e. Qed.

(** Every step of the plan leaves an entry at its path. *)
Lemma plan_entry_of d inputs :
  Forall (λ e, ∃ n, entry_of e = [(event_key e, n)]) (plan d inputs).
Proof.
  unfold plan, plan_dirs, plan_files, plan_ai.
  destruct (String.eqb (project_type inputs) "Algorithm implementation"),
           (String.eqb (project_type inputs) "Data pipeline").
  all: destruct (String.eqb (ai_tool inputs) "Claude Code");
    [|destruct (String.eqb (ai_tool inputs) "Cursor");
      [|destruct (String.eqb (ai_tool inputs) "GitHub Copilot")]].
  all: cbn [app].
  all: repeat first [apply List.Forall_nil | apply List.Forall_cons; [by eexists|]].
Qed.

Lemma plan_event_keys_nodup d inputs : NoDup (map event_key (plan d inputs)).
Proof.
  unfold plan, plan_dirs, plan_files, plan_ai.
  destruct (String.eqb (project_type inputs) "Algorithm implementation"),
           (String.eqb (project_type inputs) "Data pipeline").
  all: destruct (String.eqb (ai_tool inputs) "Claude Code");
    [|destruct (String.eqb (ai_tool inputs) "Cursor");
      [|destruct (String.eqb (ai_tool inputs) "GitHub Copilot")]].
  all: cbn [app map event_key].
  all: apply (bool_decide_unpack _); vm_compute; exact I.
Qed.

Lemma plan_event_keys_nonempty d inputs e :
  e ∈ plan d inputs → event_key e ≠ [].
Proof.
  revert e. apply Forall_forall.
  unfold plan, plan_dirs, plan_files, plan_ai.
  destruct (String.eqb (project_type inputs) "Algorithm implementation"),
           (String.eqb (project_type inputs) "Data pipeline").
  all: destruct (String.eqb (ai_tool inputs) "Claude Code");
    [|destruct (String.eqb (ai_tool inputs) "Cursor");
      [|destruct (String.eqb (ai_tool inputs) "GitHub Copilot")]].
  all: cbn [app].
  all: repeat first [apply List.Forall_nil | apply List.Forall_cons; [discriminate|]].
Qed.

(** X10. Every system call of a successful run creates an entry that did not
    exist: no path is acted on twice, none existed before the run, no call
    merely updates a timestamp, and the entry each call made is still in the
    tree at the end. So [exist_ok=True] and the overwriting mode of
    [write_text] never come into play. *)
Theorem create_project_overwrites_nothing (inputs : Inputs) (w : World) :
  creatable w (name inputs) →
  ∃ w' log,
    create_project inputs w = Ok (Path (name inputs)) w' ∧
    events w' = events w ++ log ∧
    NoDup (map event_key log) ∧
    ∀ e, e ∈ log →
      fs w !! event_key e = None ∧
      ∃ n, entry_of e = [(event_key e, n)] ∧ fs w' !! event_key e = Some n.
Proof.
  intros Hc. destruct w as [C t d inp out ev].
  destruct (create_project_creates inputs C t d inp out ev Hc)
    as (e & c & m & HP & Hdir & Hfresh & Hrun).
  destruct (root_base_ok _ C _ e c m t HP Hdir Hfresh) as [Hb1 Hb2].
  set (A := anchor (absolute (Path (name inputs))) C) in *.
  fold (root_key C (name inputs)) in Hb1, Hb2.
  assert (HR : root_key C (name inputs) = (A ++ e) ++ c :: m).
  { unfold root_key. fold A. rewrite HP. by rewrite <- app_assoc. }
  assert (Hchain : ∀ k, k ∈ chain_keys (A ++ e) (c :: m) →
            k `prefix_of` root_key C (name inputs) ∧ t !! k = None).
  { intros k Hk. apply chain_keys_prefix in Hk as (p & s & Hps & Hp & ->).
    destruct p as [|x p]; [done|]. injection Hps as <- ->. split.
    - exists s. rewrite HR. by rewrite <- !app_assoc.
    - rewrite <- app_assoc. apply Hfresh. }
  assert (Hbelow : ∀ s, t !! (root_key C (name inputs) ++ s) = None).
  { intros s. rewrite HR, <- !app_assoc. apply Hfresh. }
  eexists _, _. split; [exact Hrun|]. clear Hrun. cbn [events fs cwd].
  split; [reflexivity|]. split.
  - rewrite map_app, !map_map.
    rewrite (map_ext (λ x, event_key (EvMkdir x)) id) by reflexivity. rewrite map_id.
    rewrite (map_ext (λ x, event_key (shift (root_key C (name inputs)) x))
               (λ x, root_key C (name inputs) ++ event_key x)) by apply event_key_shift.
    rewrite <- (map_map event_key (app (root_key C (name inputs)))).
    apply NoDup_app. split; [apply chain_keys_nodup|]. split.
    + intros k Hk (rel & Hrel & ->)%elem_of_map_app.
      apply Hchain in Hk as [[s Hs] _].
      rewrite <- app_assoc in Hs. rewrite <- (app_nil_r (root_key _ _)) in Hs at 1.
      apply app_inv_head in Hs. symmetry in Hs. apply app_eq_nil in Hs as [-> _].
      apply list_elem_of_In, in_map_iff in Hrel as (e0 & He0 & Hin).
      by apply (plan_event_keys_nonempty d inputs e0); [apply list_elem_of_In|].
    + apply NoDup_map_app, plan_event_keys_nodup.
  - intros e0 [Hin|Hin]%elem_of_app.
    + apply list_elem_of_In, in_map_iff in Hin as (k & <- & Hk).
      apply list_elem_of_In in Hk. cbn [event_key entry_of].
      destruct (Hchain k Hk) as [Hpre Hnone]. split; [exact Hnone|].
      exists Dir. split; [reflexivity|].
      destruct (decide (k = root_key C (name inputs))) as [->|Hne].
      * rewrite graft_lookup_root by apply plan_proper.
        rewrite HR. apply lookup_mkchain_in. by rewrite <- HR.
      * rewrite graft_lookup_off; [by apply lookup_mkchain_in|].
        intros s ->. destruct Hpre as [s' Hs'].
        rewrite <- app_assoc in Hs'. rewrite <- (app_nil_r (root_key _ _)) in Hs' at 1.
        apply app_inv_head in Hs'. symmetry in Hs'. apply app_eq_nil in Hs' as [-> _].
        by rewrite app_nil_r in Hne.
    + apply list_elem_of_In, in_map_iff in Hin as (e1 & <- & He1).
      apply list_elem_of_In in He1. rewrite event_key_shift.
      split; [apply Hbelow|].
      pose proof (plan_entry_of d inputs) as Hall. rewrite List.Forall_forall in Hall.
      destruct (Hall e1) as [n Hn]; [by apply list_elem_of_In|].
      exists n. split.
      * destruct e1; cbn [entry_of shift event_key] in *; try discriminate Hn;
          by injection Hn as <-.
      * rewrite (graft_lookup _ _ Hb2) by (by eapply plan_event_keys_nonempty).
        apply elem_of_assoc; [apply plan_keys_nodup|].
        apply elem_of_entries. exists e1. split; [exact He1|].
        rewrite Hn. by apply list_elem_of_singleton.
Qed.

Lemma create_project_overwrites_nothing_witness :
  creatable empty_world (name nested) ∧
  ∃ w' log,
    create_project nested empty_world = Ok (Path (name nested)) w' ∧
    events w' = events empty_world ++ log ∧
    NoDup (map event_key log).
Proof.
  split; [exact creatable_nested|].
  destruct (create_project_overwrites_nothing nested empty_world creatable_nested)
    as (w' & log & Hrun & Hev & Hnd & _).
  exists w', log. split; [exact Hrun|]. split; [exact Hev | exact Hnd].
Defined.

Lemma eqb_not_in (s : string) (l : list string) x : s ∉ l → x ∈ l → String.eqb s x = false.
Proof.
  intros Hs Hx. apply String.eqb_neq. intros ->. contradiction.
Qed.

(** X11. [create_project] tells apart only two project-type strings and three
    AI-tool strings. Any two project types other than "Data pipeline" and
    "Algorithm implementation", and any two AI tools other than "Claude Code",
    "Cursor" and "GitHub Copilot", give the same run: "Analysis tool" builds
    what "General" builds, and a string of neither menu is accepted like
    "General" and "Other/None". *)
Theorem create_project_unknown_choices (nm desc pt1 pt2 tool1 tool2 : string) (w : World) :
  pt1 ∉ ["Data pipeline"; "Algorithm implementation"] →
  pt2 ∉ ["Data pipeline"; "Algorithm implementation"] →
  tool1 ∉ ["Claude Code"; "Cursor"; "GitHub Copilot"] →
  tool2 ∉ ["Claude Code"; "Cursor"; "GitHub Copilot"] →
  create_project (mkInputs nm desc pt1 tool1) w = create_project (mkInputs nm desc pt2 tool2) w.
Proof.
  intros H1 H2 H3 H4. unfold create_project. cbv zeta.
  cbn [name description project_type ai_tool].
  rewrite !(eqb_not_in pt1 _ _ H1), !(eqb_not_in pt2 _ _ H2),
          !(eqb_not_in tool1 _ _ H3), !(eqb_not_in tool2 _ _ H4)
    by (apply (bool_decide_unpack _); vm_compute; exact I).
  reflexivity.
Qed.

Lemma create_project_unknown_choices_witness :
  ("Analysis tool" ∉ ["Data pipeline"; "Algorithm implementation"]) ∧
  ("General" ∉ ["Data pipeline"; "Algorithm implementation"]) ∧
  ("Other/None" ∉ ["Claude Code"; "Cursor"; "GitHub Copilot"]) ∧
  ("vim" ∉ ["Claude Code"; "Cursor"; "GitHub Copilot"]) ∧
  create_project (mkInputs "x" "y" "Analysis tool" "Other/None") empty_world =
  create_project (mkInputs "x" "y" "General" "vim") empty_world.
Proof.
  split; [apply (bool_decide_unpack _); vm_compute; exact I|].
  split; [apply (bool_decide_unpack _); vm_compute; exact I|].
  split; [apply (bool_decide_unpack _); vm_compute; exact I|].
  split; [apply (bool_decide_unpack _); vm_compute; exact I|].
  apply create_project_unknown_choices.
  all: apply (bool_decide_unpack _); vm_compute; exact I.
Defined.

(** ** Project Builder: one run after another *)

Lemma plan_housed d inputs : housed (entries (plan d inputs)) = true.
Proof.
  unfold plan, plan_dirs, plan_files, plan_ai.
  destruct (String.eqb (project_type inputs) "Algorithm implementation"),
           (String.eqb (project_type inputs) "Data pipeline").
  all: destruct (String.eqb (ai_tool inputs) "Claude Code");
    [|destruct (String.eqb (ai_tool inputs) "Cursor");
      [|destruct (String.eqb (ai_tool inputs) "GitHub Copilot")]].
  all: reflexivity.
Qed.

(** Resolution only looks at entries, so it survives additions. *)
Lemma resolve_mono (t t' : gmap (list string) node) :
  (∀ k n, t !! k = Some n → t' !! k = Some n) →
  ∀ comps cur n r, resolve t cur n comps = inr r → resolve t' cur n comps = inr r.
Proof.
  intros Hsub. induction comps as [|c comps IH]; intros cur n r H; cbn [resolve] in *.
  - exact H.
  - destruct n; [|discriminate].
    destruct (t !! (cur ++ [c])) as [n'|] eqn:E; [|discriminate].
    rewrite (Hsub _ _ E). by apply IH.
Qed.

Lemma stat_dir_lookup t k : stat t k = inr Dir → k = [] ∨ t !! k = Some Dir.
Proof.
  intros H. destruct k as [|x k]; [by left|]. right. by apply stat_lookup.
Qed.

Lemma chain_keys_parent : ∀ comps cur (K : list string) c,
  K ++ [c] ∈ chain_keys cur comps → K = cur ∨ K ∈ chain_keys cur comps.
Proof.
  induction comps as [|x comps IH]; intros cur K c Hin; cbn [chain_keys] in *.
  - by apply elem_of_nil in Hin.
  - apply elem_of_cons in Hin as [Heq|Hin].
    + left. by apply app_inj_tail in Heq as [-> _].
    + right. apply IH in Hin as [->|Hin]; apply elem_of_cons; [by left | by right].
Qed.

Lemma assoc_housed l s c n :
  housed l = true → assoc (s ++ [c]) l = Some n → s = [] ∨ assoc s l = Some Dir.
Proof.
  intros Hh Ha. apply assoc_elem_of in Ha.
  unfold housed in Hh. rewrite forallb_forall in Hh.
  specialize (Hh _ (proj1 (list_elem_of_In _ _) Ha)). cbn [fst] in Hh.
  rewrite removelast_last in Hh.
  destruct s as [|x s]; [by left|]. right.
  destruct (assoc (x :: s) l) as [[|?]|]; by try discriminate.
Qed.

Lemma chain_keys_last : ∀ comps cur, comps ≠ [] → cur ++ comps ∈ chain_keys cur comps.
Proof.
  induction comps as [|c comps IH]; intros cur Hne; [done|]. cbn [chain_keys].
  destruct comps as [|x comps]; [apply elem_of_cons; by left|].
  apply elem_of_cons. right.
  replace (cur ++ c :: x :: comps) with ((cur ++ [c]) ++ x :: comps)
    by (by rewrite <- app_assoc).
  by apply IH.
Qed.

Lemma assoc_proper_nil l : proper l = true → assoc [] l = None.
Proof.
  induction l as [|[k n] l IH]; [reflexivity|].
  cbn [proper forallb fst assoc]. intros [Hk Hp]%andb_true_iff.
  destruct k; [discriminate|]. rewrite decide_False by discriminate. by apply IH.
Qed.

(** The tree after a run is well formed. *)
Lemma run_tree_wf R E c m l t :
  wf_tree t → R = E ++ c :: m → stat t E = inr Dir →
  (∀ s, t !! (E ++ c :: s) = None) →
  proper l = true → housed l = true →
  wf_tree (graft R l (mkchain t E (c :: m))).
Proof.
  intros Hwf -> HE Hfresh Hp Hh.
  set (R := E ++ c :: m).
  assert (Hb2 : ∀ s, s ≠ [] → mkchain t E (c :: m) !! (R ++ s) = None).
  { intros s Hs. rewrite lookup_mkchain_long.
    - unfold R. rewrite <- app_assoc. apply Hfresh.
    - unfold R. destruct s; [done|]. rewrite !length_app. cbn [length]. lia. }
  assert (Hroot : mkchain t E (c :: m) !! R = Some Dir).
  { apply lookup_mkchain_in. by apply chain_keys_last. }
  assert (Hkeep : ∀ K n, mkchain t E (c :: m) !! K = Some n →
            graft R l (mkchain t E (c :: m)) !! K = Some n).
  { intros K n HK. destruct (decide (R `prefix_of` K)) as [[s ->]|Hnp].
    - destruct s as [|x s].
      + rewrite app_nil_r in *. by rewrite graft_lookup_root.
      + rewrite Hb2 in HK by done. discriminate.
    - rewrite graft_lookup_off; [exact HK|]. intros s ->. apply Hnp. by exists s. }
  assert (Hchainwf : ∀ K c' n, mkchain t E (c :: m) !! (K ++ [c']) = Some n →
            K = [] ∨ mkchain t E (c :: m) !! K = Some Dir).
  { intros K c' n HK.
    destruct (decide (K ++ [c'] ∈ chain_keys E (c :: m))) as [Hin|Hnotin].
    - apply chain_keys_parent in Hin as [->|Hin].
      + destruct (stat_dir_lookup _ _ HE) as [->|HEl]; [by left|]. right.
        rewrite lookup_mkchain_short by lia. exact HEl.
      + right. by apply lookup_mkchain_in.
    - rewrite lookup_mkchain_notin in HK by exact Hnotin.
      apply Hwf in HK as [->|HK]; [by left|]. right.
      destruct (decide (K ∈ chain_keys E (c :: m))) as [Hin|Hnotin'].
      + by apply lookup_mkchain_in.
      + by rewrite lookup_mkchain_notin. }
  intros K c' n HK.
  destruct (decide (R `prefix_of` (K ++ [c']))) as [[s Hs]|Hnp].
  - destruct s as [|x s] using rev_ind.
    + rewrite app_nil_r in Hs. rewrite Hs in HK. rewrite graft_lookup_root in HK by done.
      rewrite <- Hs in HK. apply Hchainwf in HK as [->|HK]; [by left|]. right.
      by apply Hkeep.
    + clear IHs. rewrite app_assoc in Hs. apply app_inj_tail in Hs as [-> ->].
      rewrite <- app_assoc in HK. rewrite (graft_lookup _ _ Hb2) in HK by (by destruct s).
      apply (assoc_housed _ _ _ _ Hh) in HK as [->|HK]; right.
      * rewrite app_nil_r. by apply Hkeep.
      * destruct s as [|y s]; [by rewrite assoc_proper_nil in HK|].
        by rewrite (graft_lookup _ _ Hb2).
  - rewrite graft_lookup_off in HK by (intros s Hs; apply Hnp; by exists s).
    apply Hchainwf in HK as [->|HK]; [by left|]. right. by apply Hkeep.
Qed.

(** Where the entries of the tree after a run come from. *)
Lemma run_tree_lookup R E c m l t K n :
  R = E ++ c :: m → (∀ s, t !! (E ++ c :: s) = None) → proper l = true →
  graft R l (mkchain t E (c :: m)) !! K = Some n →
  (∃ s, s ≠ [] ∧ K = R ++ s) ∨ (K `prefix_of` R ∧ t !! K = None ∧ n = Dir) ∨ t !! K = Some n.
Proof.
  intros -> Hfresh Hp HK.
  destruct (decide ((E ++ c :: m) `prefix_of` K)) as [[s ->]|Hnp].
  - destruct s as [|x s]; [|left; by exists (x :: s)].
    right. left. rewrite app_nil_r in *. rewrite graft_lookup_root in HK by done.
    rewrite lookup_mkchain_in in HK by (by apply chain_keys_last).
    injection HK as <-. split; [done|]. split; [|done].
    apply Hfresh.
  - rewrite graft_lookup_off in HK by (intros s Hs; apply Hnp; by exists s).
    destruct (decide (K ∈ chain_keys E (c :: m))) as [Hin|Hnotin].
    + right. left. rewrite lookup_mkchain_in in HK by exact Hin. injection HK as <-.
      apply chain_keys_prefix in Hin as (p & s & Hps & Hpne & ->).
      split; [exists s; by rewrite Hps, <- app_assoc|]. split; [|done].
      destruct p as [|x p]; [done|]. injection Hps as <- ->. apply Hfresh.
    + right. right. by rewrite lookup_mkchain_notin in HK.
Qed.

(** A walk that ends at a regular file met that file on its way. *)
Lemma resolve_enotdir_file t : ∀ comps cur n,
  resolve t cur n comps = inl ENOTDIR →
  (∃ data, n = File data ∧ comps ≠ []) ∨
  ∃ q s data, comps = q ++ s ∧ q ≠ [] ∧ s ≠ [] ∧ t !! (cur ++ q) = Some (File data).
Proof.
  induction comps as [|c comps IH]; intros cur n H; cbn [resolve] in H; [discriminate|].
  destruct n as [|data]; [|left; by exists data].
  destruct (t !! (cur ++ [c])) as [n'|] eqn:E; [|discriminate].
  right. apply IH in H as [(data & -> & Hne) | (q & s & data & -> & Hq & Hs & Hl)].
  - exists [c], comps, data. by repeat split.
  - exists (c :: q), s, data. rewrite <- app_assoc in Hl. by repeat split.
Qed.

(** A walk that arrives went through directories. *)
Lemma resolve_dirs t : ∀ comps cur n r q s,
  resolve t cur n comps = inr r → comps = q ++ s → q ≠ [] → s ≠ [] →
  t !! (cur ++ q) = Some Dir.
Proof.
  induction comps as [|c comps IH]; intros cur n r q s H Heq Hq Hs; cbn [resolve] in H.
  - by destruct q.
  - destruct n; [|discriminate].
    destruct (t !! (cur ++ [c])) as [n'|] eqn:E; [|discriminate].
    destruct q as [|x q]; [done|]. injection Heq as -> ->.
    destruct q as [|y q].
    + destruct s as [|z s]; [done|]. cbn [app resolve] in H.
      destruct n'; [exact E | discriminate].
    + replace (cur ++ x :: y :: q) with ((cur ++ [x]) ++ y :: q) by (by rewrite <- app_assoc).
      by eapply IH.
Qed.

(** The tree after a successful run: it is well formed, it holds what was
    there, and whatever is new is below the root or on the way to it. *)
Lemma create_project_post inputs C t d inp out ev :
  creatable (mkWorld C t d inp out ev) (name inputs) →
  ∃ t' ev',
    create_project inputs (mkWorld C t d inp out ev) =
      Ok (Path (name inputs)) (mkWorld C t' d inp out ev') ∧
    wf_tree t' ∧
    stat t' (root_key C (name inputs)) = inr Dir ∧
    (∀ K n, t !! K = Some n → t' !! K = Some n) ∧
    (∀ K n, t' !! K = Some n →
       (∃ s, s ≠ [] ∧ K = root_key C (name inputs) ++ s) ∨
       (K `prefix_of` root_key C (name inputs) ∧ t !! K = None ∧ n = Dir) ∨
       t !! K = Some n) ∧
    (∀ rel, (∃ data, t' !! (root_key C (name inputs) ++ rel) = Some (File data)) ↔
            rel ∈ expected_files (project_type inputs) (ai_tool inputs)).
Proof.
  intros Hc. pose proof Hc as (Hwf & _).  cbn [fs] in Hwf.
  destruct (create_project_creates inputs C t d inp out ev Hc)
    as (e & c & m & HP & Hdir & Hfresh & Hrun).
  destruct (root_base_ok _ C _ e c m t HP Hdir Hfresh) as [Hb1 Hb2].
  set (A := anchor (absolute (Path (name inputs))) C) in *.
  fold (root_key C (name inputs)) in Hb1, Hb2.
  assert (HR : root_key C (name inputs) = (A ++ e) ++ c :: m).
  { unfold root_key. fold A. rewrite HP. by rewrite <- app_assoc. }
  assert (Hfresh' : ∀ s, t !! ((A ++ e) ++ c :: s) = None).
  { intros s. rewrite <- app_assoc. apply Hfresh. }
  eexists _, _. split; [exact Hrun|]. clear Hrun.
  split; [|split; [|split; [|split]]].
  - apply (run_tree_wf _ (A ++ e) c m); try done; [apply plan_proper | apply plan_housed].
  - pose proof (stat_graft _ _ Hb1 Hb2 (entries (plan d inputs)) [] (plan_proper _ _)) as Hs.
    by rewrite app_nil_r in Hs.
  - intros K n HK. rewrite graft_lookup_off.
    + rewrite lookup_mkchain_notin; [exact HK|].
      intros Hin. apply chain_keys_prefix in Hin as (p & s & Hps & Hp & ->).
      destruct p as [|x p]; [done|]. injection Hps as <- ->.
      rewrite Hfresh' in HK. discriminate.
    + intros s ->. rewrite HR, <- app_assoc in HK. cbn [app] in HK.
      rewrite Hfresh' in HK. discriminate.
  - intros K n HK.
    by apply (run_tree_lookup _ (A ++ e) c m (entries (plan d inputs)) t K n HR Hfresh'
                (plan_proper _ _)).
  - intros rel. rewrite <- (plan_files_expected d inputs).
    apply project_tree_files; [exact Hb1 | | exact Hb2].
    rewrite HR. by destruct (A ++ e).
Qed.

(** X13. A successful run leaves the file tree well formed (every entry sits
    in a directory), with the working directory still a directory and the
    project root now one: the standing assumptions on the tree hold again for
    whatever runs next. *)
Theorem create_project_keeps_tree_well_formed (inputs : Inputs) (w : World) :
  creatable w (name inputs) →
  ∃ w', create_project inputs w = Ok (Path (name inputs)) w' ∧
    wf_tree (fs w') ∧
    stat (fs w') (cwd w') = inr Dir ∧
    stat (fs w') (root_key (cwd w) (name inputs)) = inr Dir.
Proof.
  intros Hc. destruct w as [C t d inp out ev].
  destruct (create_project_post inputs C t d inp out ev Hc)
    as (t' & ev' & Hrun & Hwf & Hroot & Hkeep & _).
  eexists. split; [exact Hrun|]. cbn [fs cwd]. split; [exact Hwf|]. split; [|exact Hroot].
  destruct Hc as (_ & Hcwd & _). by apply (resolve_mono t t' Hkeep).
Qed.

Lemma create_project_keeps_tree_well_formed_witness :
  creatable empty_world (name nested) ∧
  ∃ w', create_project nested empty_world = Ok (Path (name nested)) w' ∧
    wf_tree (fs w') ∧ stat (fs w') ["a"; "b"] = inr Dir.
Proof.
  split; [exact creatable_nested|].
  destruct (create_project_keeps_tree_well_formed nested empty_world creatable_nested)
    as (w' & Hrun & Hwf & _ & Hroot).
  exists w'. split; [exact Hrun|]. split; [exact Hwf | exact Hroot].
Defined.

Lemma creatable_after inputs C t d inp out ev nm' t' ev' :
  creatable (mkWorld C t d inp out ev) (name inputs) →
  creatable (mkWorld C t d inp out ev) nm' →
  ¬ root_key C (name inputs) `prefix_of` root_key C nm' →
  ¬ root_key C nm' `prefix_of` root_key C (name inputs) →
  wf_tree t' →
  (∀ K n, t !! K = Some n → t' !! K = Some n) →
  (∀ K n, t' !! K = Some n →
     (∃ s, s ≠ [] ∧ K = root_key C (name inputs) ++ s) ∨
     (K `prefix_of` root_key C (name inputs) ∧ t !! K = None ∧ n = Dir) ∨
     t !! K = Some n) →
  creatable (mkWorld C t' d inp out ev') nm'.
Proof.
  intros HcA HcB Hab Hba Hwf' Hkeep Horigin.
  destruct (creatable_split _ _ _ _ _ _ _ HcB) as (e & c & m & HP & Hdir & Hfresh).
  destruct HcB as (_ & Hcwd & Hmiss & Hdots). cbn [fs cwd] in *.
  set (A := anchor (absolute (Path nm')) C) in *.
  assert (HR : root_key C nm' = (A ++ e) ++ c :: m).
  { unfold root_key. fold A. rewrite HP. by rewrite <- app_assoc. }
  assert (Hfresh' : ∀ s, t !! ((A ++ e) ++ c :: s) = None).
  { intros s. rewrite <- app_assoc. apply Hfresh. }
  assert (Hold : ∀ K n, K `prefix_of` root_key C nm' → K ≠ [] → t' !! K = Some n →
            ((∃ u, u ≠ [] ∧ A ++ e = K ++ u) ∨ K = A ++ e) ∧ n = Dir ∨
            (∃ u, K = (A ++ e) ++ c :: u) ∧ t !! K = None ∧ n = Dir).
  { intros K n [s Hs] HK Hl.
    assert (Hcases : (∃ u, A ++ e = K ++ u) ∨ ∃ u, K = (A ++ e) ++ c :: u).
    { rewrite HR in Hs. symmetry in Hs. apply app_eq_app in Hs as [l [[-> Hl']|[-> Hl']]].
      - destruct l as [|x l]; [left; exists []; by rewrite !app_nil_r|].
        right. injection Hl' as <- _. by exists l.
      - left. by exists l. }
    apply Horigin in Hl as [(s' & Hs' & ->) | [(Hpre & Hnone & ->) | Hl]].
    - exfalso. apply Hab. exists (s' ++ s). by rewrite Hs, <- app_assoc.
    - destruct Hcases as [[u Hu]|[u Hu]].
      + left. split; [|done]. destruct u as [|x u]; [right; by rewrite app_nil_r in Hu|].
        left. by exists (x :: u).
      + right. by repeat split; [exists u|..].
    - destruct Hcases as [[u Hu]|[u ->]]; [|by rewrite Hfresh' in Hl].
      left. destruct u as [|x u].
      + rewrite app_nil_r in Hu. subst K. split; [by right|].
        rewrite (stat_lookup _ _ _ Hdir HK) in Hl. by injection Hl.
      + split; [left; by exists (x :: u)|].
        unfold stat in Hdir.
        pose proof (resolve_dirs t _ [] Dir Dir K (x :: u) Hdir Hu HK) as HD.
        cbn [app] in HD. rewrite HD in Hl by done. by injection Hl. }
  split; [exact Hwf'|]. split; [by apply (resolve_mono t t' Hkeep)|]. split; [|exact Hdots].
  cbn [fs cwd].
  assert (HRne : root_key C nm' ≠ []) by (rewrite HR; by destruct (A ++ e)).
  destruct (stat t' (root_key C nm')) as [err|n] eqn:Hs.
  - destruct (stat_errors _ _ _ Hs) as [->| ->]; [reflexivity|]. exfalso.
    unfold stat in Hs.
    apply resolve_enotdir_file in Hs as [(data & Hd & _) | (q & s & data & Hqs & Hq & Hsne & Hl)];
      [discriminate|].
    cbn [app] in Hl.
    destruct (Hold q (File data)) as [[_ Hd] | (_ & _ & Hd)];
      [by exists s | exact Hq | exact Hl | discriminate | discriminate].
  - exfalso. apply stat_lookup in Hs; [|exact HRne].
    apply Horigin in Hs as [(s' & Hs' & Heq) | [(Hpre & _) | Hl]].
    + apply Hab. exists s'. exact Heq.
    + by apply Hba.
    + rewrite HR, Hfresh' in Hl. discriminate.
Qed.

(** X14. Two projects side by side. If both roots can be made and neither
    lies at or below the other, making the first project does not get in the
    way of the second: both runs return, afterwards the regular files below
    each root are exactly the documented set of its own inputs, and
    everything that existed before is still there. *)
Theorem create_project_side_by_side (first second : Inputs) (w : World) :
  creatable w (name first) → creatable w (name second) →
  ¬ root_key (cwd w) (name first) `prefix_of` root_key (cwd w) (name second) →
  ¬ root_key (cwd w) (name second) `prefix_of` root_key (cwd w) (name first) →
  ∃ w1 w2,
    create_project first w = Ok (Path (name first)) w1 ∧
    create_project second w1 = Ok (Path (name second)) w2 ∧
    (∀ rel, (∃ data, fs w2 !! (root_key (cwd w) (name first) ++ rel) = Some (File data)) ↔
            rel ∈ expected_files (project_type first) (ai_tool first)) ∧
    (∀ rel, (∃ data, fs w2 !! (root_key (cwd w) (name second) ++ rel) = Some (File data)) ↔
            rel ∈ expected_files (project_type second) (ai_tool second)) ∧
    (∀ K n, fs w !! K = Some n → fs w2 !! K = Some n).
Proof.
  intros Hc1 Hc2 H12 H21. destruct w as [C t d inp out ev]. cbn [cwd fs] in *.
  destruct (create_project_post first C t d inp out ev Hc1)
    as (t1 & ev1 & Hrun1 & Hwf1 & Hroot1 & Hkeep1 & Horigin1 & Hfiles1).
  pose proof (creatable_after first C t d inp out ev (name second) t1 ev1
                Hc1 Hc2 H12 H21 Hwf1 Hkeep1 Horigin1) as Hc2'.
  destruct (create_project_post second C t1 d inp out ev1 Hc2')
    as (t2 & ev2 & Hrun2 & Hwf2 & Hroot2 & Hkeep2 & Horigin2 & Hfiles2).
  eexists _, _. split; [exact Hrun1|]. split; [exact Hrun2|]. clear Hrun1 Hrun2.
  cbn [fs]. split; [|split; [exact Hfiles2|]].
  - intros rel. rewrite <- Hfiles1. split; intros [data Hd]; exists data.
    + apply Horigin2 in Hd as [(s & Hs & Heq) | [(Hpre & Hnone & Hn) | Hd]];
        [| discriminate Hn | exact Hd].
      exfalso. apply app_eq_app in Heq as [l [[Heq _]|[Heq _]]].
      * apply H21. by exists l.
      * apply H12. by exists l.
    + by apply Hkeep2.
  - intros K n HK. by apply Hkeep2, Hkeep1.
Qed.

Lemma create_project_side_by_side_witness :
  creatable empty_world (name seismic) ∧ creatable empty_world (name nested) ∧
  ∃ w1 w2,
    create_project seismic empty_world = Ok (Path (name seismic)) w1 ∧
    create_project nested w1 = Ok (Path (name nested)) w2 ∧
    ∃ data, fs w2 !! ["seismic-analysis"; "README.md"] = Some (File data).
Proof.
  split; [exact creatable_seismic|]. split; [exact creatable_nested|].
  destruct (create_project_side_by_side seismic nested empty_world
              creatable_seismic creatable_nested)
    as (w1 & w2 & H1 & H2 & Hfiles & _).
  - intros [s Hs]. vm_compute in Hs. discriminate Hs.
  - intros [s Hs]. vm_compute in Hs. discriminate Hs.
  - exists w1, w2. split; [exact H1|]. split; [exact H2|].
    apply (Hfiles ["README.md"]). apply (bool_decide_unpack _). vm_compute. exact I.
Defined.

(** ** Template Catalog: the shape of the documents *)

Lemma last_char_app (a b : string) c :
  last_char b = Some c → last_char (a +:+ b) = Some c.
Proof.
  intros Hb. induction a as [|x a IH]; [exact Hb|].
  change (String x a +:+ b) with (String x (a +:+ b)).
  cbn [last_char]. destruct (a +:+ b) eqn:E; [|exact IH].
  cbn in IH. discriminate IH.
Qed.

(** X15. Every template of the catalog, rendered on any date, name and
    description, opens with a level-one Markdown heading ("# ") and ends with
    a newline; and each of the six templates that are not constants contains
    the project name verbatim. *)
Theorem rendered_template_shape (tpl : template) (today : date) (name description : string) :
  starts_with "# " (render tpl today name description) = true ∧
  last_char (render tpl today name description) = Some newline ∧
  (tpl ∉ static_templates → occurs_in name (render tpl today name description)).
Proof.
  split; [|split].
  - destruct tpl; reflexivity.
  - destruct tpl; cbn [render];
      unfold overview_template, readme_template, contributing_template, claude_md_template,
        cursorrules_template, copilot_instructions_template;
      repeat apply last_char_app; vm_compute; reflexivity.
  - intros Hns. destruct tpl; cbn [render];
      try solve [exfalso; apply Hns; unfold static_templates; rewrite !elem_of_cons;
                 repeat first [by left | right]];
      apply occurs_in_mid.
Qed.

(** X16. The structure diagram of the README names, by its last component
    followed by "/", every directory that [create_project] makes whatever the
    project type. *)
Theorem readme_lists_base_directories (name description : string) (k : list string) :
  (∀ project_type, k ∈ dirs_created (plan_dirs project_type)) →
  ∃ c, last k = Some c ∧ occurs_in (c +:+ "/") (readme_template name description).
Proof.
  intros Hk. specialize (Hk "General"). cbn in Hk.
  repeat (apply elem_of_cons in Hk as [->|Hk]); [..|by apply elem_of_nil in Hk].
  all: eexists; (split; [reflexivity|]).
  all: unfold readme_template; do 6 apply occurs_in_app_r.
  all: apply occursb_occurs; vm_compute; reflexivity.
Qed.

Lemma readme_lists_base_directories_witness :
  (∀ project_type, ["specs"; "99-decisions"] ∈ dirs_created (plan_dirs project_type)) ∧
  ∃ c, last ["specs"; "99-decisions"] = Some c ∧
       occurs_in (c +:+ "/") (readme_template "seismic-analysis" "Detect quakes").
Proof.
  assert (H : ∀ project_type,
            ["specs"; "99-decisions"] ∈ dirs_created (plan_dirs project_type)).
  { intros pt. unfold plan_dirs. rewrite dirs_created_app, elem_of_app. left.
    apply (bool_decide_unpack _). vm_compute. exact I. }
  split; [exact H|].
  exact (readme_lists_base_directories "seismic-analysis" "Detect quakes" _ H).
Defined.

(** ** Completion Reporter and entry point *)

(** The run of [print_next_steps]. *)
Lemma print_next_steps_run (root : PurePath) (tool : string) c t d inp out ev :
  ∃ first extra,
    print_next_steps root tool (mkWorld c t d inp out ev) =
      Ok () (mkWorld c t d inp (out ++ first :: extra) ev) ∧
    occurs_in ("Project created: " +:+ path_str root +:+ "/
") first ∧
    occurs_in ("  1. cd " +:+ path_str root +:+ "
") first ∧
    match reported_config tool with
    | Some rel => ∃ l, extra = [l] ∧ occurs_in ("Your " +:+ join_slash rel +:+ " is ready") l
    | None => extra = []
    end.
Proof.
  unfold print_next_steps, reported_config. cbv zeta.
  destruct (String.eqb tool "Claude Code");
    [|destruct (String.eqb tool "Cursor"); [|destruct (String.eqb tool "GitHub Copilot")]].
  all: eexists _, _; split; [io; rewrite <- ?app_assoc; reflexivity|].
  all: split;
    [match goal with
     | |- occurs_in (?A +:+ ?r +:+ ?B) (ln (?P +:+ ?r +:+ ?Q1 +:+ ?r +:+ ?Q2)) =>
         let P0 := eval vm_compute in
                     (String.substring 0 (String.length P - String.length A) P) in
         let Q1' := eval vm_compute in
                      (String.substring (String.length B)
                         (String.length Q1 - String.length B) Q1) in
         exists P0, (Q1' +:+ r +:+ Q2 +:+ "
")
     end; unfold ln; rewrite !app_assoc_str; reflexivity|].
  all: split;
    [match goal with
     | |- occurs_in (?A +:+ ?r +:+ ?B) (ln (?P +:+ ?r +:+ ?Q1 +:+ ?r +:+ ?Q2)) =>
         let Q1a := eval vm_compute in
                      (String.substring 0 (String.length Q1 - String.length A) Q1) in
         let Q2' := eval vm_compute in
                      (String.substring (String.length B)
                         (String.length Q2 - String.length B) Q2) in
         exists (P +:+ r +:+ Q1a), (Q2' +:+ "
")
     end; unfold ln; rewrite !app_assoc_str; reflexivity|].
  all: try reflexivity.
  all: eexists; split; [reflexivity|]; apply occursb_occurs; vm_compute; reflexivity.
Qed.

(** X17. [print_next_steps] always returns and changes the standard output
    only. Its first message has the lines "Project created: <root>/" and
    "1. cd <root>" with [str(root)] for <root>; for Claude Code, Cursor and
    GitHub Copilot one more message follows, which names the configuration
    file of that tool; for any other tool nothing follows. *)
Theorem print_next_steps_report (root : PurePath) (tool : string) (w : World) :
  ∃ first extra,
    print_next_steps root tool w =
      Ok () (mkWorld (cwd w) (fs w) (clock w) (stdin w) (stdout w ++ first :: extra)
               (events w)) ∧
    occurs_in ("Project created: " +:+ path_str root +:+ "/
") first ∧
    occurs_in ("  1. cd " +:+ path_str root +:+ "
") first ∧
    match reported_config tool with
    | Some rel => ∃ l, extra = [l] ∧ occurs_in ("Your " +:+ join_slash rel +:+ " is ready") l
    | None => extra = []
    end.
Proof. destruct w as [c t d inp out ev]. apply print_next_steps_run. Qed.






